(** * Apache-style blog: content resolver and listing presenter

    Shallow embedding of [src/unnamed/part_001] (lib/content.ts),
    [src/lib/shared.ts] and the sort comparator of
    [src/unnamed/part_004] (components/DirectoryListing.tsx). *)

From Stdlib Require Import String Ascii List ZArith Bool Lia Permutation Sorting.Sorted.
Import ListNotations.
Open Scope Z_scope.

(** ** Data model ([interface DirectoryEntry], [interface PostData]) *)

Record DirectoryEntry := mkEntry {
  name : string;
  isDirectory : bool;
  extension : string;
  date : string;
  size : Z;
  description : string;
  href : string
}.

Record PostData := mkPost {
  title : string;
  post_description : string;
  post_date : string;
  content : string;
  slug : string
}.

(** ** Listing presenter: the comparator of [DirectoryListing] *)
Module Listing.

Inductive SortColumn := ColName | ColDate | ColSize | ColDescription.
Inductive SortOrder := Asc | Desc.

Section Comparator.

(** [String.prototype.localeCompare]: the host's collation, returning a
    negative, zero or positive number. *)
Variable localeCompare : string -> string -> Z.

(** The callback passed to [[...entries].sort] (part_004, lines 28-48). *)
Definition compareEntries (col : SortColumn) (ord : SortOrder)
    (a b : DirectoryEntry) : Z :=
  if isDirectory a && negb (isDirectory b) then -1
  else if negb (isDirectory a) && isDirectory b then 1
  else
    let cmp :=
      match col with
      | ColName => localeCompare (name a) (name b)
      | ColDate => localeCompare (date a) (date b)
      | ColSize => size a - size b
      | ColDescription => localeCompare (description a) (description b)
      end in
    match ord with Asc => cmp | Desc => - cmp end.

End Comparator.

(** [Array.prototype.sort] is stable (ECMAScript 2019). For a consistent
    comparator every stable sort returns the same list, the one built by
    stable insertion: each element goes after every element already placed
    that it does not compare strictly below. *)
Section StableSort.

Variable A : Type.
Variable cmp : A -> A -> Z.

Fixpoint insert (x : A) (l : list A) : list A :=
  match l with
  | [] => [x]
  | y :: l' => if cmp x y <? 0 then x :: y :: l' else y :: insert x l'
  end.

Fixpoint sort_from (acc : list A) (l : list A) : list A :=
  match l with
  | [] => acc
  | x :: l' => sort_from (insert x acc) l'
  end.

Definition sort (l : list A) : list A := sort_from [] l.

End StableSort.

Arguments insert {A} cmp x l.
Arguments sort_from {A} cmp acc l.
Arguments sort {A} cmp l.

(** [const sorted = [...entries].sort(...)] *)
Definition sortEntries (localeCompare : string -> string -> Z)
    (entries : list DirectoryEntry) (col : SortColumn) (ord : SortOrder)
    : list DirectoryEntry :=
  sort (compareEntries localeCompare col ord) entries.

(** A comparator a stable sort can honour: [cmp a b] and [cmp b a] have
    opposite signs, and [cmp _ _ <= 0] is transitive. *)
Definition consistent {A : Type} (cmp : A -> A -> Z) : Prop :=
  (forall a b, Z.sgn (cmp a b) = - Z.sgn (cmp b a)) /\
  (forall a b c, cmp a b <= 0 -> cmp b c <= 0 -> cmp a c <= 0).

End Listing.

(** ** Number formatting ([formatSize], src/lib/shared.ts) *)
Module Format.
Local Open Scope string_scope.

(** The decimal digit character of [0 <= d < 10]. *)
Definition digit (d : Z) : ascii := ascii_of_nat (48 + Z.to_nat d).

(** Decimal digits of [n >= 0], most significant first, in front of [acc];
    [fuel] bounds the number of digits. *)
Fixpoint digits_aux (fuel : nat) (n : Z) (acc : string) : string :=
  match fuel with
  | O => acc
  | S f =>
      let acc' := String (digit (n mod 10)) acc in
      if Z.ltb n 10 then acc' else digits_aux f (n / 10) acc'
  end.

(** [Number.prototype.toString()] on a non-negative safe integer: its
    decimal digits ([n] has fewer than [log2 n + 2] of them). *)
Definition toDecimal (n : Z) : string :=
  digits_aux (S (Z.to_nat (Z.log2 n))) n "".

Fixpoint zeros (k : nat) : string :=
  match k with O => "" | S k' => String "0" (zeros k') end.

(** [x.toFixed(f)] for [x = p / q] with [p >= 0], [q > 0] and [x < 10^21]
    (ECMAScript 21.1.3.3): [n] is the integer nearest to [x * 10^f], the
    larger one on a tie; its digits get a point inserted [f] places from
    the right, after left padding with zeros. *)
Definition toFixed (f : nat) (p q : Z) : string :=
  let n := (2 * p * 10 ^ Z.of_nat f + q) / (2 * q) in
  let m := toDecimal n in
  if Nat.eqb f 0 then m
  else
    let k := String.length m in
    let m' := if Nat.leb k f then zeros (f + 1 - k) ++ m else m in
    let k' := String.length m' in
    substring 0 (k' - f) m' ++ "." ++ substring (k' - f) f m'.

(** [formatSize(bytes)]; [bytes] is a byte count, a non-negative integer
    below [2^53], so every division by a power of two is exact. *)
Definition formatSize (bytes : Z) : string :=
  if Z.eqb bytes 0 then "0"
  else if Z.ltb bytes 1024 then toDecimal bytes
  else if Z.ltb bytes (1024 * 1024) then toFixed 1 bytes 1024 ++ "K"
  else if Z.ltb bytes (1024 * 1024 * 1024) then toFixed 0 bytes (1024 * 1024) ++ "M"
  else toFixed 0 bytes (1024 * 1024 * 1024) ++ "G".

(** Reading a decimal numeral back (used to state what [toDecimal] means). *)
Definition digitValue (c : ascii) : option Z :=
  let v := Z.of_nat (nat_of_ascii c) - 48 in
  if Z.leb 0 v && Z.ltb v 10 then Some v else None.

Fixpoint decimalValue_aux (acc : Z) (s : string) : option Z :=
  match s with
  | EmptyString => Some acc
  | String c s' =>
      match digitValue c with
      | Some d => decimalValue_aux (10 * acc + d) s'
      | None => None
      end
  end.

Definition decimalValue (s : string) : option Z :=
  match s with EmptyString => None | _ => decimalValue_aux 0 s end.

End Format.

(** ** Content resolver ([src/unnamed/part_001], lib/content.ts) *)
Module Content.
Local Open Scope string_scope.

(** The content tree under [CONTENT_DIR]: a directory holds its children
    in [fs.readdirSync] order; a file holds its raw bytes (as a string of
    8-bit characters) and its modification time in epoch milliseconds.
    Symbolic links are not modelled. *)
Inductive node :=
| Dir (children : entries)
| File (raw : string) (mtime : Z)
with entries :=
| ENil
| ECons (item : string) (n : node) (rest : entries).

Scheme node_mut := Induction for node Sort Prop
with entries_mut := Induction for entries Sort Prop.

(** The frontmatter fields the code reads from [matter(raw).data]. *)
Record FrontMatter := mkFrontMatter {
  fm_title : option string;
  fm_description : option string;
  fm_date : option string
}.

(** Errors: [None] is a thrown exception, [Some v] a returned value. *)
Definition M (A : Type) := option A.
Definition ret {A} (a : A) : M A := Some a.
Definition bind {A B} (m : M A) (k : A -> M B) : M B :=
  match m with Some a => k a | None => None end.
Notation "'let*' x := m 'in' k" := (bind m (fun x => k))
  (at level 200, x name, m at level 100, k at level 200).
Notation "'let*' ' p := m 'in' k" := (bind m (fun x => match x with p => k end))
  (at level 200, p pattern, m at level 100, k at level 200).

(** [fs.readdirSync] + [path.join]: the child named [item]. *)
Fixpoint lookup (es : entries) (item : string) : option node :=
  match es with
  | ENil => None
  | ECons i n rest => if String.eqb i item then Some n else lookup rest item
  end.

(** The node at a relative path given as segments, [None] if absent. *)
Fixpoint resolve (n : node) (segs : list string) : option node :=
  match segs with
  | [] => Some n
  | s :: rest =>
      match n with
      | Dir es => match lookup es s with Some m => resolve m rest | None => None end
      | File _ _ => None
      end
  end.

Definition existsSync (root : entries) (segs : list string) : bool :=
  match resolve (Dir root) segs with Some _ => true | None => false end.

(** [contentPath + ext]: the extension is glued to the last segment. *)
Definition withExt (segs : list string) (ext : string) : list string :=
  match rev segs with
  | [] => [ext]
  | last :: rpre => (rev rpre ++ [last ++ ext]%string)%list
  end.

(** [path.basename(contentPath)]. *)
Definition basename (segs : list string) : string :=
  match rev segs with [] => "" | last :: _ => last end.

(** [segments.join("/")] ([path.join] of plain segments). *)
Definition joinPath (segs : list string) : string := String.concat "/" segs.

(** [String.prototype.endsWith]. *)
Definition endsWith (s suffix : string) : bool :=
  let n := String.length s in
  let m := String.length suffix in
  Nat.leb m n && String.eqb (substring (n - m) m s) suffix.

(** [item.endsWith(".mdx") || item.endsWith(".md")]. *)
Definition isPostName (item : string) : bool :=
  endsWith item ".mdx" || endsWith item ".md".

(** [item.replace(/\.mdx?$/, "")]. *)
Definition slugOf (item : string) : string :=
  let n := String.length item in
  if endsWith item ".mdx" then substring 0 (n - 4) item
  else if endsWith item ".md" then substring 0 (n - 3) item
  else item.

Fixpoint lastDot_aux (s : string) (i : nat) (acc : option nat) : option nat :=
  match s with
  | EmptyString => acc
  | String c s' =>
      lastDot_aux s' (S i) (if Ascii.eqb c "." then Some i else acc)
  end.

(** [path.extname] (posix) on a file name without separators: from the last
    dot, unless that dot starts the name or the name is "..". *)
Definition extname (item : string) : string :=
  match lastDot_aux item 0 None with
  | None => ""
  | Some O => ""
  | Some i =>
      if String.eqb item ".." then ""
      else substring i (String.length item - i) item
  end.

(** A JavaScript string is truthy when non-empty. *)
Definition truthy (v : option string) : option string :=
  match v with
  | Some s => if String.eqb s "" then None else Some s
  | None => None
  end.

Definition orEmpty (v : option string) : string :=
  match truthy v with Some s => s | None => "" end.

(** Vocabulary of the statements: [item] names a child [n] of [es]. *)
Fixpoint inEntries (item : string) (n : node) (es : entries) : Prop :=
  match es with
  | ENil => False
  | ECons i m rest => (i = item /\ m = n) \/ inEntries item n rest
  end.

(** [String.prototype.split] with a one-character separator. *)
Fixpoint splitOn (sep : ascii) (s : string) : list string :=
  match s with
  | EmptyString => [""]
  | String c s' =>
      if Ascii.eqb c sep then "" :: splitOn sep s'
      else match splitOn sep s' with
           | [] => [String c ""]
           | w :: ws => String c w :: ws
           end
  end.

(** [normalizeString] of Node's posix [path]: the segments between
    separators, where "" and "." are dropped and ".." removes the segment
    before it unless that is ".." too; with nothing to remove, ".." is kept
    for a relative path ([above]) and dropped for an absolute one. [stack]
    holds the result so far, last segment first. *)
Fixpoint normSegs (above : bool) (stack segs : list string) : list string :=
  match segs with
  | [] => rev stack
  | w :: rest =>
      if String.eqb w "" || String.eqb w "." then normSegs above stack rest
      else if String.eqb w ".." then
        match stack with
        | top :: stack' =>
            if String.eqb top ".." then normSegs above (".." :: stack) rest
            else normSegs above stack' rest
        | [] => if above then normSegs above [".."] rest else normSegs above [] rest
        end
      else normSegs above (w :: stack) rest
  end.

Definition isAbsolute (p : string) : bool :=
  match p with String c _ => Ascii.eqb c "/" | EmptyString => false end.

(** The last character is a separator. *)
Fixpoint lastIsSlash (p : string) : bool :=
  match p with
  | EmptyString => false
  | String c EmptyString => Ascii.eqb c "/"
  | String _ p' => lastIsSlash p'
  end.

(** [path.normalize] (posix). *)
Definition normalize (p : string) : string :=
  if String.eqb p "" then "." else
  let isAbs := isAbsolute p in
  let trailing := lastIsSlash p in
  let r := String.concat "/" (normSegs (negb isAbs) [] (splitOn "/" p)) in
  if String.eqb r "" then (if isAbs then "/" else if trailing then "./" else ".")
  else
    let r := if trailing then r ++ "/" else r in
    if isAbs then "/" ++ r else r.

(** [path.join(...args)] (posix): the non-empty arguments joined by "/",
    then normalized; "." when all are empty. *)
Definition pathJoin (args : list string) : string :=
  match filter (fun a => negb (String.eqb a "")) args with
  | [] => "."
  | ps => normalize (String.concat "/" ps)
  end.

(** The segments of [path.join(CONTENT_DIR, contentPath)] below
    [CONTENT_DIR]: a result starting with ".." leaves the content tree. *)
Definition contentSegs (contentPath : string) : list string :=
  normSegs true [] (splitOn "/" contentPath).

(** [path.basename(p)] (posix): the last segment, trailing separators
    ignored. *)
Definition basenameStr (p : string) : string :=
  match rev (filter (fun w => negb (String.eqb w "")) (splitOn "/" p)) with
  | last :: _ => last
  | [] => ""
  end.

Section Runtime.

(** [matter(raw)] of gray-matter: the frontmatter data and the body, or a
    thrown YAML error. *)
Variable matter : string -> option (FrontMatter * string).
(** [new Date(v).getTime()], [None] for an Invalid Date. *)
Variable toTime : string -> option Z.
(** [new Date(t).toISOString().split("T")[0]] for a valid time [t]. *)
Variable isoDay : Z -> string.
(** [Date.now()] when the listing is built. *)
Variable now : Z.

(** [new Date(v).toISOString().split("T")[0]]: throws on an Invalid Date. *)
Definition isoOfDateValue (v : string) : M string :=
  match toTime v with Some t => ret (isoDay t) | None => None end.

(** [getDirectoryDate(dirPath)]: the loop keeps [latestDate] in epoch ms;
    a NaN date never compares greater. *)
Fixpoint latestPostTime (es : entries) (latest : Z) : M Z :=
  match es with
  | ENil => ret latest
  | ECons item (Dir _) rest => latestPostTime rest latest
  | ECons item (File raw mtime) rest =>
      if isPostName item then
        let* '(data, _) := matter raw in
        let d := match truthy (fm_date data) with
                 | Some v => toTime v
                 | None => Some mtime
                 end in
        let latest' := match d with
                       | Some t => if Z.gtb t latest then t else latest
                       | None => latest
                       end in
        latestPostTime rest latest'
      else latestPostTime rest latest
  end.

Definition getDirectoryDate (es : entries) : M string :=
  let* latest := latestPostTime es 0 in
  ret (if Z.eqb latest 0 then isoDay now else isoDay latest).

(** [getDirectoryDescription(dirPath)]: reads [index.mdx] only; reading a
    directory of that name throws (EISDIR). *)
Definition getDirectoryDescription (es : entries) : M string :=
  match lookup es "index.mdx" with
  | Some (File raw _) =>
      let* '(data, _) := matter raw in ret (orEmpty (fm_description data))
  | Some (Dir _) => None
  | None => ret ""
  end.

(** The [for (const item of items)] loop of [readDirectory]. *)
Fixpoint listEntries (contentPath : string) (es : entries) : M (list DirectoryEntry) :=
  match es with
  | ENil => ret []
  | ECons item (Dir sub) rest =>
      let* d := getDirectoryDate sub in
      let* desc := getDirectoryDescription sub in
      let* tl := listEntries contentPath rest in
      ret ({| name := item ++ "/"; isDirectory := true; extension := "";
              date := d; size := 0; description := desc;
              href := "/" ++ pathJoin [contentPath; item] |} :: tl)
  | ECons item (File raw mtime) rest =>
      if isPostName item then
        let* '(data, _) := matter raw in
        let* d := match truthy (fm_date data) with
                  | Some v => isoOfDateValue v
                  | None => ret (isoDay mtime)
                  end in
        let* tl := listEntries contentPath rest in
        ret ({| name := item; isDirectory := false; extension := extname item;
                date := d; size := Z.of_nat (String.length raw);
                description := orEmpty (fm_description data);
                href := "/" ++ pathJoin [contentPath; slugOf item] |} :: tl)
      else listEntries contentPath rest
  end.

(** [readDirectory(contentPath)] for [contentPath] the segments joined by
    "/", where each segment names an entry (so that
    [path.join(CONTENT_DIR, contentPath)] is the node along them); the
    route's call on any string is [Route.readDirectoryAt]. *)
Definition readDirectory (root : entries) (segs : list string)
    : M (list DirectoryEntry) :=
  match resolve (Dir root) segs with
  | Some (Dir es) => listEntries (joinPath segs) es
  | _ => ret []
  end.

(** Lines 137-148 of [readPost]: the post read from the chosen file, with
    [path.basename(contentPath)] and [contentPath] given. *)
Definition readPostFileAs (base contentPath : string) (raw : string)
    : M (option PostData) :=
  let* '(data, body) := matter raw in
  let* d := match truthy (fm_date data) with
            | Some v => isoOfDateValue v
            | None => ret ""
            end in
  ret (Some {| title := match truthy (fm_title data) with
                        | Some t => t
                        | None => base
                        end;
               post_description := orEmpty (fm_description data);
               post_date := d;
               content := body;
               slug := contentPath |}).

(** The same for [contentPath] the segments joined by "/". *)
Definition readPostFile (segs : list string) (raw : string) : M (option PostData) :=
  readPostFileAs (basename segs) (joinPath segs) raw.

(** [readPost(contentPath)]: [.mdx] first, then [.md]; [fs.readFileSync]
    throws (EISDIR) when the chosen path is a directory. *)
Definition readPost (root : entries) (segs : list string) : M (option PostData) :=
  let mdxPath := withExt segs ".mdx" in
  let mdPath := withExt segs ".md" in
  let filePath := if existsSync root mdxPath then Some mdxPath
                  else if existsSync root mdPath then Some mdPath
                  else None in
  match filePath with
  | None => ret None
  | Some fp =>
      match resolve (Dir root) fp with
      | Some (File raw _) => readPostFile segs raw
      | _ => None
      end
  end.

(** Vocabulary of the statements: [t] is the effective time of a direct
    post file of [es] (its frontmatter date when present, else its mtime). *)
Definition postTime (es : entries) (t : Z) : Prop :=
  exists item raw mtime data body,
    inEntries item (File raw mtime) es /\ isPostName item = true /\
    matter raw = Some (data, body) /\
    match truthy (fm_date data) with
    | Some v => toTime v = Some t
    | None => t = mtime
    end.

End Runtime.

(** [isDirectory(contentPath)]. *)
Definition isDirectoryPath (root : entries) (segs : list string) : bool :=
  match resolve (Dir root) segs with Some (Dir _) => true | _ => false end.

(** [isPost(contentPath)]. *)
Definition isPost (root : entries) (segs : list string) : bool :=
  existsSync root (withExt segs ".mdx") || existsSync root (withExt segs ".md").

(** [walk(dir, segments)] of [getAllPaths]. *)
Fixpoint walk (es : entries) (segments : list string) : list (list string) :=
  match es with
  | ENil => []
  | ECons item (Dir sub) rest =>
      ((segments ++ [item]) :: walk sub (segments ++ [item]) ++ walk rest segments)%list
  | ECons item (File _ _) rest =>
      if isPostName item then (segments ++ [slugOf item])%list :: walk rest segments
      else walk rest segments
  end.

(** [getAllPaths()]. *)
Definition getAllPaths (root : entries) : list (list string) := walk root [].

(** [n] is reachable from the directory [es] along the segments. *)
Inductive reach : entries -> list string -> node -> Prop :=
| reach_child es item n :
    inEntries item n es -> reach es [item] n
| reach_under es item sub p n :
    inEntries item (Dir sub) es -> reach sub p n -> reach es (item :: p) n.

(** [q] is the path of a directory below [es], or the extension-stripped
    path of a post file below it. *)
Definition Item (es : entries) (q : list string) : Prop :=
  (exists sub, reach es q (Dir sub)) \/
  (exists pre item raw mtime,
     reach es (pre ++ [item])%list (File raw mtime) /\ isPostName item = true /\
     q = (pre ++ [slugOf item])%list).

(** Directories and post files below [es], each counted once. *)
Fixpoint countItems (es : entries) : nat :=
  match es with
  | ENil => 0
  | ECons _ (Dir sub) rest => S (countItems sub + countItems rest)
  | ECons item (File _ _) rest =>
      if isPostName item then S (countItems rest) else countItems rest
  end.

End Content.

(** ** Well-formed content trees

    What [fs.readdirSync] guarantees of a real directory: its names are
    distinct, non-empty, neither "." nor "..", and contain no "/". *)
Module Tree.
Import Content.
Local Open Scope string_scope.

Fixpoint names (es : entries) : list string :=
  match es with
  | ENil => []
  | ECons item _ rest => item :: names rest
  end.

Fixpoint hasSlash (s : string) : bool :=
  match s with
  | EmptyString => false
  | String c s' => Ascii.eqb c "/" || hasSlash s'
  end.

Definition validName (item : string) : bool :=
  negb (String.eqb item "") && negb (String.eqb item ".") &&
  negb (String.eqb item "..") && negb (hasSlash item).

Fixpoint wfNode (n : node) : bool :=
  match n with
  | Dir es => wfEntries es
  | File _ _ => true
  end
with wfEntries (es : entries) : bool :=
  match es with
  | ENil => true
  | ECons item n rest =>
      validName item && negb (existsb (String.eqb item) (names rest)) &&
      wfNode n && wfEntries rest
  end.

End Tree.

(** ** Type column ([getTypeIndicator] of [src/lib/shared.ts]) *)
Module Indicator.
Import Content.
Local Open Scope string_scope.

(** [String.prototype.toLowerCase] on the letters A-Z. Other characters are
    kept: no other character lower-cases to text that contains one of the
    table's keys below (the only non-ASCII characters lowering to ASCII
    letters give "i" followed by a combining dot, and "k"). *)
Definition lowerAscii (c : ascii) : ascii :=
  let n := nat_of_ascii c in
  if Nat.leb 65 n && Nat.leb n 90 then ascii_of_nat (n + 32) else c.

Fixpoint toLowerCase (s : string) : string :=
  match s with
  | EmptyString => EmptyString
  | String c s' => String (lowerAscii c) (toLowerCase s')
  end.

(** The own properties of the object literal [map]. *)
Definition typeMap : list (string * string) :=
  [(".mdx", "[TXT]"); (".md", "[TXT]"); (".txt", "[TXT]"); (".pdf", "[PDF]");
   (".png", "[IMG]"); (".jpg", "[IMG]"); (".jpeg", "[IMG]"); (".gif", "[IMG]");
   (".svg", "[IMG]"); (".tar.gz", "[CMP]"); (".zip", "[CMP]"); (".gz", "[CMP]")].

(** The properties an object literal inherits from [Object.prototype]; each
    is a function or an object, so truthy. *)
Definition objectPrototypeKeys : list string :=
  ["constructor"; "__defineGetter__"; "__defineSetter__"; "hasOwnProperty";
   "__lookupGetter__"; "__lookupSetter__"; "isPrototypeOf";
   "propertyIsEnumerable"; "toString"; "valueOf"; "__proto__";
   "toLocaleString"].

Fixpoint assoc (k : string) (l : list (string * string)) : option string :=
  match l with
  | [] => None
  | (k', v) :: l' => if String.eqb k k' then Some v else assoc k l'
  end.

(** The value [getTypeIndicator] returns: a string, or the inherited member
    of [Object.prototype] that [map[ext]] found. *)
Inductive TypeIndicator :=
| IText (s : string)
| IInherited (key : string).

Definition getTypeIndicator (entry : DirectoryEntry) : TypeIndicator :=
  if isDirectory entry then IText "[DIR]"
  else
    let ext := toLowerCase (extension entry) in
    match assoc ext typeMap with
    | Some v => IText v
    | None =>
        if existsb (String.eqb ext) objectPrototypeKeys then IInherited ext
        else IText "[ ]"
    end.

End Indicator.

(** ** Listing view state ([src/unnamed/part_004] and [part_003]) *)
Module View.
Import Listing Content.
Local Open Scope string_scope.

Definition SortColumn_eqb (a b : SortColumn) : bool :=
  match a, b with
  | ColName, ColName | ColDate, ColDate | ColSize, ColSize
  | ColDescription, ColDescription => true
  | _, _ => false
  end.

(** The two [useState] cells of [DirectoryListing]. *)
Record SortState := mkSortState { sortColumn : SortColumn; sortOrder : SortOrder }.

Definition initialSortState : SortState := mkSortState ColName Asc.

(** [handleSort(column)] (lines 19-26): the state after the re-render. *)
Definition handleSort (column : SortColumn) (s : SortState) : SortState :=
  if SortColumn_eqb (sortColumn s) column then
    mkSortState (sortColumn s) (match sortOrder s with Asc => Desc | Desc => Asc end)
  else mkSortState column Asc.

(** The mobile listing's columns (line 134) and its comparator (lines
    157-173). *)
Inductive MobileSortColumn := MName | MDate | MDescription.

Definition compareMobile (localeCompare : string -> string -> Z)
    (col : MobileSortColumn) (ord : SortOrder) (a b : DirectoryEntry) : Z :=
  if isDirectory a && negb (isDirectory b) then -1
  else if negb (isDirectory a) && isDirectory b then 1
  else
    let cmp :=
      match col with
      | MName => localeCompare (name a) (name b)
      | MDate => localeCompare (date a) (date b)
      | MDescription => localeCompare (description a) (description b)
      end in
    match ord with Asc => cmp | Desc => - cmp end.

(** The desktop column of the same name. *)
Definition desktopColumn (c : MobileSortColumn) : SortColumn :=
  match c with MName => ColName | MDate => ColDate | MDescription => ColDescription end.

Definition sortMobile (localeCompare : string -> string -> Z)
    (entries : list DirectoryEntry) (col : MobileSortColumn) (ord : SortOrder)
    : list DirectoryEntry :=
  sort (compareMobile localeCompare col ord) entries.

(** [path.split("/").filter(Boolean)]. *)
Definition pathSegments (path : string) : list string :=
  filter (fun w => negb (String.eqb w "")) (splitOn "/" path).

(** [parentHref] (lines 56 and 181); [None] is [null]. [slice(0, -1)]
    drops the last element, and nothing of an empty array. *)
Definition parentHref (path : string) : option string :=
  if String.eqb path "/" then None
  else Some ("/" ++ joinPath (removelast (pathSegments path))).

(** [segments.map((segment, i) => ...)]. *)
Fixpoint mapi_from {A B} (f : nat -> A -> B) (i : nat) (l : list A) : list B :=
  match l with
  | [] => []
  | x :: l' => f i x :: mapi_from f (S i) l'
  end.

(** One link of the breadcrumb: its [href], its text, and the text after it. *)
Record Crumb := mkCrumb { crumb_href : string; crumb_label : string; crumb_sep : string }.

(** [Breadcrumb({ path })] (part_003): the links after "Index of /" and
    the site link. *)
Definition breadcrumb (path : string) : list Crumb :=
  let segments := pathSegments path in
  mapi_from (fun i segment =>
    let isLast := Nat.eqb i (List.length segments - 1) in
    let href := "/" ++ joinPath (firstn (S i) segments) in
    mkCrumb href segment
      (if isLast && negb (endsWith path "/") then "" else "/")) 0 segments.

End View.

(** ** Pages ([src/app/[...path]/page.tsx] and the root page, part_000) *)
Module Route.
Import Content.
Local Open Scope string_scope.

(** What a page renders; [notFound()] ends the render with a 404. *)
Inductive Page :=
| ListingPage (path : string) (entries : list DirectoryEntry)
| PostPage (post : PostData) (parentPath : string)
| NotFound.

(** [parentPath] of [CatchAllPage] for a post. *)
Definition postParentPath (segs : list string) : string :=
  let parentSegments := removelast segs in
  if Nat.eqb (List.length parentSegments) 0 then "/"
  else "/" ++ joinPath parentSegments.

Section Pages.

Variable matter : string -> option (FrontMatter * string).
Variable toTime : string -> option Z.
Variable isoDay : Z -> string.
Variable now : Z.
(** The rest of the file system: the node at a normalized relative path
    that starts with "..", reached from [CONTENT_DIR] through its parent. *)
Variable outside : list string -> option node.

(** The node at [path.join(CONTENT_DIR, contentPath)], if any. *)
Definition nodeAt (root : entries) (contentPath : string) : option node :=
  let segs := contentSegs contentPath in
  match segs with
  | w :: _ => if String.eqb w ".." then outside segs else resolve (Dir root) segs
  | [] => Some (Dir root)
  end.

Definition existsAt (root : entries) (p : string) : bool :=
  match nodeAt root p with Some _ => true | None => false end.

(** [isDirectory(contentPath)]. *)
Definition isDirectoryAt (root : entries) (contentPath : string) : bool :=
  match nodeAt root contentPath with Some (Dir _) => true | _ => false end.

(** [isPost(contentPath)]. *)
Definition isPostAt (root : entries) (contentPath : string) : bool :=
  existsAt root (contentPath ++ ".mdx") || existsAt root (contentPath ++ ".md").

(** [readDirectory(contentPath)]. *)
Definition readDirectoryAt (root : entries) (contentPath : string)
    : M (list DirectoryEntry) :=
  match nodeAt root contentPath with
  | Some (Dir es) => listEntries matter toTime isoDay now contentPath es
  | _ => ret []
  end.

(** [readPost(contentPath)]. *)
Definition readPostAt (root : entries) (contentPath : string) : M (option PostData) :=
  let mdxPath := contentPath ++ ".mdx" in
  let mdPath := contentPath ++ ".md" in
  let filePath := if existsAt root mdxPath then Some mdxPath
                  else if existsAt root mdPath then Some mdPath
                  else None in
  match filePath with
  | None => ret None
  | Some fp =>
      match nodeAt root fp with
      | Some (File raw _) =>
          readPostFileAs matter toTime isoDay (basenameStr contentPath) contentPath raw
      | _ => None
      end
  end.

(** [generateStaticParams()]. *)
Definition generateStaticParams (root : entries) : list (list string) :=
  getAllPaths root.

(** [Home()]: the root listing, [readDirectory("")]. *)
Definition Home (root : entries) : M Page :=
  let* entries := readDirectory matter toTime isoDay now root [] in
  ret (ListingPage "/" entries).

(** [CatchAllPage({ params })]: [contentPath] is [path.join("/")]. *)
Definition CatchAllPage (root : entries) (path : list string) : M Page :=
  let contentPath := joinPath path in
  if isDirectoryAt root contentPath then
    let* entries := readDirectoryAt root contentPath in
    ret (ListingPage ("/" ++ contentPath ++ "/") entries)
  else if isPostAt root contentPath then
    let* post := readPostAt root contentPath in
    match post with
    | None => ret NotFound
    | Some p => ret (PostPage p (postParentPath path))
    end
  else ret NotFound.

End Pages.

End Route.

(** ** A concrete runtime for worked examples

    The resolver is verified for any [matter], [toTime], [isoDay] and
    [now]. The worked examples run it with the definitions below: a reader
    of the flat [key: value] frontmatter blocks the content uses, and the
    UTC calendar conversions of [Date] for date-only ISO strings. *)
Module Samples.
Import Format Content.
Local Open Scope string_scope.

Fixpoint splitLines (s : string) : list string :=
  match s with
  | EmptyString => [""]
  | String c s' =>
      if Ascii.eqb c (ascii_of_nat 10) then "" :: splitLines s'
      else match splitLines s' with
           | l :: ls => String c l :: ls
           | [] => [String c ""]
           end
  end.

Fixpoint joinLines (ls : list string) : string :=
  match ls with
  | [] => ""
  | [l] => l
  | l :: ls' => l ++ String (ascii_of_nat 10) (joinLines ls')
  end.

(** [key: value] split at the first colon followed by a space. *)
Fixpoint splitKey (s : string) : option (string * string) :=
  match s with
  | EmptyString => None
  | String c s' =>
      if Ascii.eqb c ":" then
        match s' with
        | String sp v => if Ascii.eqb sp " " then Some ("", v) else None
        | EmptyString => Some ("", "")
        end
      else match splitKey s' with
           | Some (k, v) => Some (String c k, v)
           | None => None
           end
  end.

Definition dquote : string := String (ascii_of_nat 34) EmptyString.

Definition unquote (v : string) : string :=
  let n := String.length v in
  if Nat.leb 2 n && String.eqb (substring 0 1 v) dquote
     && String.eqb (substring (n - 1) 1 v) dquote
  then substring 1 (n - 2) v else v.

Definition emptyFM := mkFrontMatter None None None.

Definition setField (fm : FrontMatter) (line : string) : FrontMatter :=
  match splitKey line with
  | Some (k, v) =>
      let v := unquote v in
      if String.eqb k "title" then mkFrontMatter (Some v) (fm_description fm) (fm_date fm)
      else if String.eqb k "description" then mkFrontMatter (fm_title fm) (Some v) (fm_date fm)
      else if String.eqb k "date" then mkFrontMatter (fm_title fm) (fm_description fm) (Some v)
      else fm
  | None => fm
  end.

Fixpoint readBlock (fm : FrontMatter) (ls : list string)
    : option (FrontMatter * list string) :=
  match ls with
  | [] => None
  | l :: ls' => if String.eqb l "---" then Some (fm, ls') else readBlock (setField fm l) ls'
  end.

Definition sampleMatter (raw : string) : option (FrontMatter * string) :=
  match splitLines raw with
  | first :: rest =>
      if String.eqb first "---" then
        match readBlock emptyFM rest with
        | Some (fm, body) => Some (fm, joinLines body)
        | None => Some (emptyFM, raw)
        end
      else Some (emptyFM, raw)
  | [] => Some (emptyFM, raw)
  end.

Definition daysFromCivil (y m d : Z) : Z :=
  let y := if Z.leb m 2 then y - 1 else y in
  let era := y / 400 in
  let yoe := y - era * 400 in
  let doy := (153 * (if Z.gtb m 2 then m - 3 else m + 9) + 2) / 5 + d - 1 in
  let doe := yoe * 365 + yoe / 4 - yoe / 100 + doy in
  era * 146097 + doe - 719468.

Definition civilFromDays (z : Z) : Z * Z * Z :=
  let z := z + 719468 in
  let era := z / 146097 in
  let doe := z - era * 146097 in
  let yoe := (doe - doe / 1460 + doe / 36524 - doe / 146096) / 365 in
  let y := yoe + era * 400 in
  let doy := doe - (365 * yoe + yoe / 4 - yoe / 100) in
  let mp := (5 * doy + 2) / 153 in
  let d := doy - (153 * mp + 2) / 5 + 1 in
  let m := if Z.ltb mp 10 then mp + 3 else mp - 9 in
  (if Z.leb m 2 then y + 1 else y, m, d).

Definition msPerDay : Z := 86400000.

Definition digitsValue (s : string) : option Z :=
  match s with
  | EmptyString => None
  | _ => decimalValue s
  end.

(** [new Date("YYYY-MM-DD").getTime()] (UTC midnight). *)
Definition sampleToTime (v : string) : option Z :=
  if Nat.eqb (String.length v) 10
     && String.eqb (substring 4 1 v) "-" && String.eqb (substring 7 1 v) "-" then
    match digitsValue (substring 0 4 v), digitsValue (substring 5 2 v),
          digitsValue (substring 8 2 v) with
    | Some y, Some m, Some d =>
        if Z.leb 1 m && Z.leb m 12 && Z.leb 1 d && Z.leb d 31 then
          let t := daysFromCivil y m d in
          match civilFromDays t with
          | (y', m', d') =>
              if Z.eqb y y' && Z.eqb m m' && Z.eqb d d' then Some (t * msPerDay)
              else None
          end
        else None
    | _, _, _ => None
    end
  else None.

Definition pad (w : nat) (n : Z) : string :=
  let s := toDecimal n in zeros (w - String.length s) ++ s.

(** [new Date(t).toISOString().split("T")[0]] for years 0 to 9999. *)
Definition sampleIsoDay (t : Z) : string :=
  match civilFromDays (t / msPerDay) with
  | (y, m, d) => pad 4 y ++ "-" ++ pad 2 m ++ "-" ++ pad 2 d
  end.

Definition nl : string := String (ascii_of_nat 10) EmptyString.

(** A post file with a flat frontmatter block. *)
Definition postText (fields : list string) (body : string) : string :=
  "---" ++ nl ++ String.concat nl fields ++ nl ++ "---" ++ nl ++ body.

Definition sampleMtime : Z := 1700000000000.

Definition sampleNow : Z := daysFromCivil 2026 10 14 * msPerDay.

(** The layout of the repository's design notes: an [archives/] directory
    with an older post, a top-level post and a non-post file. *)
Definition sampleRoot : entries :=
  ECons "archives"
    (Dir (ECons "old-post.mdx"
            (File (postText ["title: Old post"; "description: Archived";
                             "date: 2025-06-15"] "Old body") sampleMtime)
            ENil))
  (ECons "hello.mdx"
     (File (postText ["title: Hello"; "description: First post";
                      "date: 2026-02-23"] "Hi") sampleMtime)
  (ECons "notes.txt" (File "plain text" sampleMtime) ENil)).

(** No node outside the content directory. *)
Definition sampleOutside (segs : list string) : option node := None.

(** A collation for examples: by length. *)
Definition lengthCompare (s t : string) : Z :=
  Z.of_nat (String.length s) - Z.of_nat (String.length t).

Definition sampleEntry (n : string) (dir : bool) (sz : Z) : DirectoryEntry :=
  mkEntry n dir "" "2026-01-01" sz "" ("/" ++ n).

Definition sampleEntries : list DirectoryEntry :=
  [sampleEntry "b.mdx" false 10; sampleEntry "zz/" true 0;
   sampleEntry "a.mdx" false 10; sampleEntry "yy/" true 0;
   sampleEntry "c.md" false 3].

Definition sampleListing : list DirectoryEntry :=
  match readDirectory sampleMatter sampleToTime sampleIsoDay sampleNow sampleRoot [] with
  | Some l => l
  | None => []
  end.

Definition dummyEntry : DirectoryEntry := sampleEntry "" false 0.

(** A post whose title is written as the empty string. *)
Definition emptyTitleText : string :=
  postText ["title: " ++ dquote ++ dquote; "date: 2026-02-23"] "Hi".

(** A post whose date is not a date. *)
Definition badDateText : string :=
  postText ["title: Later"; "date: someday"] "Soon".

(** A directory and a post that share a stem. *)
Definition stemRoot : entries :=
  ECons "a" (Dir ENil) (ECons "a.mdx" (File (postText ["title: A"] "x") sampleMtime) ENil).

(** A subdirectory whose index post is an ".md" file. *)
Definition indexMdText : string :=
  postText ["title: Notes"; "description: Notes"] "Index".

Definition indexMdRoot : entries :=
  ECons "notes" (Dir (ECons "index.md" (File indexMdText sampleMtime) ENil)) ENil.

(** A subdirectory whose only post is dated before the epoch. *)
Definition oldPostRoot : entries :=
  ECons "history"
    (Dir (ECons "landing.mdx"
            (File (postText ["title: Landing"; "date: 1969-07-20"] "x") sampleMtime) ENil))
    ENil.

(** A directory whose name ends in ".mdx". *)
Definition dirNamedPostRoot : entries := ECons "post.mdx" (Dir ENil) ENil.

End Samples.

(** * Proofs *)

(** ** Listing presenter *)
Module ListingFacts.
Import Listing.

Section Insertion.

Variable A : Type.
Variable cmp : A -> A -> Z.

Lemma insert_perm : forall x l, Permutation (insert cmp x l) (x :: l).
Proof.
  intros x l; induction l as [|y l IH]; simpl; [reflexivity|].
  destruct (cmp x y <? 0); [reflexivity|].
  rewrite IH. constructor.
Qed.

Lemma sort_from_perm : forall l acc,
  Permutation (sort_from cmp acc l) (acc ++ l).
Proof.
  induction l as [|x l IH]; intros acc; simpl.
  - now rewrite app_nil_r.
  - rewrite IH, insert_perm. apply Permutation_middle.
Qed.

Lemma sort_perm : forall l, Permutation (sort cmp l) l.
Proof. intros l; apply (sort_from_perm l []). Qed.

Lemma Forall_insert : forall (P : A -> Prop) x l,
  P x -> Forall P l -> Forall P (insert cmp x l).
Proof.
  intros P x l Hx Hl.
  eapply Permutation_Forall; [symmetry; apply insert_perm|].
  now constructor.
Qed.

Lemma filter_insert_out : forall (p : A -> bool) x l,
  p x = false -> filter p (insert cmp x l) = filter p l.
Proof.
  intros p x l Hx; induction l as [|y l IH]; simpl.
  - now rewrite Hx.
  - destruct (cmp x y <? 0); simpl.
    + now rewrite Hx.
    + now rewrite IH.
Qed.

End Insertion.

Arguments insert_perm {A} cmp x l.
Arguments sort_perm {A} cmp l.

(** Inserting into a list whose directories all precede its files. *)
Lemma insert_partition lc col ord x ds fs :
  Forall (fun e => isDirectory e = true) ds ->
  Forall (fun e => isDirectory e = false) fs ->
  let c := compareEntries lc col ord in
  (isDirectory x = true -> insert c x (ds ++ fs) = insert c x ds ++ fs) /\
  (isDirectory x = false -> insert c x (ds ++ fs) = ds ++ insert c x fs).
Proof.
  intros Hds Hfs c; split; intros Hx.
  - induction Hds as [|d ds Hd Hds IH]; simpl.
    + destruct fs as [|f fs]; simpl; [reflexivity|].
      inversion Hfs; subst.
      unfold c, compareEntries. rewrite Hx, H1. reflexivity.
    + destruct (c x d <? 0); [reflexivity|]. now rewrite IH.
  - induction Hds as [|d ds Hd Hds IH]; simpl; [reflexivity|].
    unfold c at 1, compareEntries. rewrite Hx, Hd. simpl.
    now rewrite IH.
Qed.

Lemma sort_from_partition lc col ord l ds fs :
  Forall (fun e => isDirectory e = true) ds ->
  Forall (fun e => isDirectory e = false) fs ->
  exists ds' fs',
    sort_from (compareEntries lc col ord) (ds ++ fs) l = ds' ++ fs' /\
    Forall (fun e => isDirectory e = true) ds' /\
    Forall (fun e => isDirectory e = false) fs'.
Proof.
  revert ds fs; induction l as [|x l IH]; intros ds fs Hds Hfs; simpl.
  - now exists ds, fs.
  - destruct (insert_partition lc col ord x ds fs Hds Hfs) as [Hd Hf].
    destruct (isDirectory x) eqn:Ex.
    + rewrite (Hd eq_refl). apply IH; [|exact Hfs].
      apply Forall_insert; [exact Ex | exact Hds].
    + rewrite (Hf eq_refl). apply IH; [exact Hds|].
      apply Forall_insert; [exact Ex | exact Hfs].
Qed.

(** Claim C1: for every input list, column and order, the output of
    [sortEntries] is a list of directories followed by a list of files,
    and it is a permutation of the input. *)
Theorem sortEntries_dirs_before_files :
  forall (localeCompare : string -> string -> Z)
         (entries : list DirectoryEntry) (col : SortColumn) (ord : SortOrder),
  exists dirs files,
    sortEntries localeCompare entries col ord = dirs ++ files /\
    Forall (fun e => isDirectory e = true) dirs /\
    Forall (fun e => isDirectory e = false) files /\
    Permutation (dirs ++ files) entries.
Proof.
  intros lc entries col ord.
  destruct (sort_from_partition lc col ord entries [] [])
    as (ds & fs & Heq & Hds & Hfs); [constructor|constructor|].
  exists ds, fs; repeat split; try assumption.
  rewrite <- Heq. apply (sort_perm (compareEntries lc col ord) entries).
Qed.

(** Consequence in positional form: no file is placed before a directory. *)
Lemma sortEntries_no_file_before_dir lc entries col ord i j a b :
  nth_error (sortEntries lc entries col ord) i = Some a ->
  nth_error (sortEntries lc entries col ord) j = Some b ->
  isDirectory a = true -> isDirectory b = false -> (i < j)%nat.
Proof.
  destruct (sortEntries_dirs_before_files lc entries col ord)
    as (ds & fs & -> & Hds & Hfs & _).
  intros Ha Hb Hda Hdb.
  destruct (Nat.lt_ge_cases i (length ds)) as [Hi|Hi];
  destruct (Nat.lt_ge_cases j (length ds)) as [Hj|Hj]; try lia.
  - rewrite nth_error_app1 in Hb by exact Hj.
    apply nth_error_In in Hb. rewrite Forall_forall in Hds.
    rewrite (Hds b Hb) in Hdb; discriminate.
  - rewrite nth_error_app2 in Ha by exact Hi.
    apply nth_error_In in Ha. rewrite Forall_forall in Hfs.
    rewrite (Hfs a Ha) in Hda; discriminate.
  - rewrite nth_error_app2 in Ha by exact Hi.
    apply nth_error_In in Ha. rewrite Forall_forall in Hfs.
    rewrite (Hfs a Ha) in Hda; discriminate.
Qed.

Lemma filter_all_false {B : Type} (p : B -> bool) l :
  (forall z, In z l -> p z = false) -> filter p l = [].
Proof.
  induction l as [|y l IH]; intros H; simpl; [reflexivity|].
  rewrite (H y (or_introl eq_refl)). apply IH. intros z Hz; apply H; now right.
Qed.

Lemma sgn_opposite x y :
  Z.sgn x = - Z.sgn y ->
  (x < 0 /\ y > 0) \/ (x = 0 /\ y = 0) \/ (x > 0 /\ y < 0).
Proof.
  intros H.
  destruct (Z.compare_spec x 0) as [Hx|Hx|Hx];
  destruct (Z.compare_spec y 0) as [Hy|Hy|Hy];
  try (rewrite (Z.sgn_neg x) in H by exact Hx);
  try (rewrite (Z.sgn_pos x) in H by exact Hx);
  try (rewrite (Z.sgn_neg y) in H by exact Hy);
  try (rewrite (Z.sgn_pos y) in H by exact Hy);
  subst; simpl in H; lia.
Qed.

Section ConsistentSort.

Variable A : Type.
Variable cmp : A -> A -> Z.
Hypothesis Hcons : consistent cmp.

Let le a b := cmp a b <= 0.

Lemma cmp_opp a b :
  (cmp a b < 0 /\ cmp b a > 0) \/ (cmp a b = 0 /\ cmp b a = 0) \/
  (cmp a b > 0 /\ cmp b a < 0).
Proof. apply sgn_opposite, (proj1 Hcons). Qed.

Lemma cmp_trans a b c : cmp a b <= 0 -> cmp b c <= 0 -> cmp a c <= 0.
Proof. apply (proj2 Hcons). Qed.

Lemma cmp_eq_trans a b c : cmp a b = 0 -> cmp b c = 0 -> cmp a c = 0.
Proof.
  intros H1 H2.
  pose proof (cmp_opp a b); pose proof (cmp_opp b c); pose proof (cmp_opp a c).
  assert (cmp a c <= 0) by (apply (cmp_trans a b c); lia).
  assert (cmp c a <= 0) by (apply (cmp_trans c b a); lia).
  lia.
Qed.

Lemma cmp_lt_le_trans a b c : cmp a b < 0 -> cmp b c <= 0 -> cmp a c < 0.
Proof.
  intros H1 H2.
  assert (Hac : cmp a c <= 0) by (apply (cmp_trans a b c); lia).
  destruct (Z.eq_dec (cmp a c) 0) as [E|E]; [|lia].
  pose proof (cmp_opp a c); pose proof (cmp_opp a b).
  assert (cmp b a <= 0) by (apply (cmp_trans b c a); lia).
  lia.
Qed.

Lemma insert_sorted x l :
  StronglySorted le l -> StronglySorted le (insert cmp x l).
Proof.
  induction l as [|y l IH]; intros Hs; simpl.
  - repeat constructor.
  - inversion Hs as [|? ? Hs' Hy]; subst.
    destruct (cmp x y <? 0) eqn:E; apply Z.ltb_lt in E || apply Z.ltb_ge in E.
    + constructor; [exact Hs|]. constructor; [unfold le; lia|].
      rewrite Forall_forall in *. intros z Hz.
      unfold le in *. pose proof (cmp_lt_le_trans x y z E (Hy z Hz)). lia.
    + constructor; [now apply IH|].
      apply Forall_insert; [|exact Hy].
      unfold le; pose proof (cmp_opp x y); lia.
Qed.

Lemma filter_insert_in (k : A) x l :
  StronglySorted le l -> cmp k x = 0 ->
  filter (fun z => cmp k z =? 0) (insert cmp x l) =
  filter (fun z => cmp k z =? 0) l ++ [x].
Proof.
  intros Hs Hx; induction l as [|y l IH]; simpl.
  - now rewrite Hx.
  - inversion Hs as [|? ? Hs' Hy]; subst.
    destruct (cmp x y <? 0) eqn:E; apply Z.ltb_lt in E || apply Z.ltb_ge in E.
    + simpl. rewrite Hx. simpl.
      assert (Hnone : forall z, In z (y :: l) -> (cmp k z =? 0) = false).
      { intros z Hz. apply Z.eqb_neq. intros Hkz.
        assert (Hxz : cmp x z < 0).
        { destruct Hz as [<-|Hz]; [exact E|].
          rewrite Forall_forall in Hy.
          exact (cmp_lt_le_trans x y z E (Hy z Hz)). }
        assert (cmp x k = 0) by (pose proof (cmp_opp k x); lia).
        pose proof (cmp_eq_trans x k z ltac:(assumption) Hkz). lia. }
      pose proof (filter_all_false _ (y :: l) Hnone) as Hf. simpl in Hf. rewrite Hf. reflexivity.
    + simpl. destruct (cmp k y =? 0); simpl; rewrite IH by exact Hs'; reflexivity.
Qed.

Lemma sort_from_stable (k : A) l acc :
  StronglySorted le acc ->
  filter (fun z => cmp k z =? 0) (sort_from cmp acc l) =
  filter (fun z => cmp k z =? 0) acc ++ filter (fun z => cmp k z =? 0) l.
Proof.
  revert acc; induction l as [|x l IH]; intros acc Hs; simpl.
  - now rewrite app_nil_r.
  - rewrite IH by (now apply insert_sorted).
    destruct (cmp k x =? 0) eqn:E.
    + apply Z.eqb_eq in E. rewrite filter_insert_in by assumption.
      now rewrite <- app_assoc.
    + now rewrite filter_insert_out.
Qed.

(** Stability of the stable insertion sort: for every key [k], the entries
    comparing equal to [k] keep their input order. *)
Lemma sort_stable (k : A) l :
  filter (fun z => cmp k z =? 0) (sort cmp l) = filter (fun z => cmp k z =? 0) l.
Proof.
  unfold sort. rewrite sort_from_stable by constructor. reflexivity.
Qed.

End ConsistentSort.

Arguments sort_stable {A} cmp Hcons k l.

(** ** Consistency of the listing comparator *)

Lemma consistent_ext {A} (f g : A -> A -> Z) :
  consistent f -> (forall a b, f a b = g a b) -> consistent g.
Proof.
  intros [Ha Ht] E; split.
  - intros a b; rewrite <- !E; apply Ha.
  - intros a b c; rewrite <- !E; apply Ht.
Qed.

Lemma consistent_proj {A B} (d : B -> B -> Z) (f : A -> B) :
  consistent d -> consistent (fun a b => d (f a) (f b)).
Proof. intros [Ha Ht]; split; intros; [apply Ha | eapply Ht; eassumption]. Qed.

Lemma consistent_opp {A} (d : A -> A -> Z) :
  consistent d -> consistent (fun a b => - d a b).
Proof.
  intros Hd; split.
  - intros a b; rewrite !Z.sgn_opp, (proj1 Hd a b); lia.
  - intros a b c H1 H2.
    pose proof (sgn_opposite _ _ (proj1 Hd a b)).
    pose proof (sgn_opposite _ _ (proj1 Hd b c)).
    pose proof (sgn_opposite _ _ (proj1 Hd a c)).
    assert (d c a <= 0) by (apply (proj2 Hd c b a); lia).
    lia.
Qed.

Lemma consistent_partition {A} (P : A -> bool) (d : A -> A -> Z) :
  consistent d ->
  consistent (fun a b =>
    if P a && negb (P b) then -1 else if negb (P a) && P b then 1 else d a b).
Proof.
  intros Hd; split.
  - intros a b; destruct (P a), (P b); simpl; try reflexivity; apply Hd.
  - intros a b c; destruct (P a), (P b), (P c); simpl; intros H1 H2;
      try lia; eapply (proj2 Hd); eassumption.
Qed.

Lemma consistent_size : consistent (fun a b => size a - size b).
Proof.
  split.
  - intros a b. rewrite <- Z.sgn_opp. f_equal. lia.
  - intros a b c; lia.
Qed.

Lemma compareEntries_consistent lc col ord :
  consistent lc -> consistent (compareEntries lc col ord).
Proof.
  intros Hlc.
  set (d := match col with
            | ColName => fun a b => lc (name a) (name b)
            | ColDate => fun a b => lc (date a) (date b)
            | ColSize => fun a b => size a - size b
            | ColDescription => fun a b => lc (description a) (description b)
            end).
  assert (Hd : consistent d)
    by (unfold d; destruct col;
        [ exact (consistent_proj lc name Hlc)
        | exact (consistent_proj lc date Hlc)
        | exact consistent_size
        | exact (consistent_proj lc description Hlc) ]).
  set (d' := match ord with Asc => d | Desc => fun a b => - d a b end).
  assert (Hd' : consistent d')
    by (destruct ord; [exact Hd | apply consistent_opp; exact Hd]).
  eapply consistent_ext; [apply (consistent_partition isDirectory d' Hd')|].
  intros a b; unfold d', d, compareEntries.
  destruct (isDirectory a && negb (isDirectory b)); [reflexivity|].
  destruct (negb (isDirectory a) && isDirectory b); [reflexivity|].
  destruct col, ord; reflexivity.
Qed.

(** Claim C4: [sortEntries] is stable. For any key entry [k], the entries
    that the selected comparator ranks equal to [k] appear in the output in
    the same relative order as in the input. The comparator's string part,
    [localeCompare], is assumed consistent (a total preorder), as a
    collation is. *)
Theorem sortEntries_stable (localeCompare : string -> string -> Z)
    (Hlc : consistent localeCompare)
    (entries : list DirectoryEntry) (col : SortColumn) (ord : SortOrder)
    (k : DirectoryEntry) :
  filter (fun e => compareEntries localeCompare col ord k e =? 0)%Z
         (sortEntries localeCompare entries col ord) =
  filter (fun e => compareEntries localeCompare col ord k e =? 0) entries.
Proof.
  unfold sortEntries.
  apply (sort_stable _ (compareEntries_consistent localeCompare col ord Hlc)).
Qed.

End ListingFacts.

(** ** Number formatting *)
Module FormatFacts.
Import Format.
Local Open Scope string_scope.

Lemma append_assoc_str (s t u : string) : (s ++ t) ++ u = s ++ (t ++ u).
Proof. induction s as [|c s IH]; simpl; [reflexivity|now rewrite IH]. Qed.

Lemma append_empty_r (s : string) : s ++ "" = s.
Proof. induction s as [|c s IH]; simpl; [reflexivity|now rewrite IH]. Qed.

Lemma length_append_str (s t : string) :
  String.length (s ++ t) = (String.length s + String.length t)%nat.
Proof. induction s as [|c s IH]; simpl; [reflexivity|now rewrite IH]. Qed.

Lemma substring_prefix (s t : string) :
  substring 0 (String.length s) (s ++ t) = s.
Proof. induction s as [|c s IH]; simpl; [destruct t; reflexivity|now rewrite IH]. Qed.


Lemma substring_suffix (s t : string) m :
  substring (String.length s) m (s ++ t) = substring 0 m t.
Proof. induction s as [|c s IH]; simpl; [reflexivity|exact IH]. Qed.

Lemma digits_aux_S f n acc :
  digits_aux (S f) n acc =
  if Z.ltb n 10 then String (digit (n mod 10)) acc
  else digits_aux f (n / 10) (String (digit (n mod 10)) acc).
Proof. reflexivity. Qed.

Lemma digits_aux_app f n acc : digits_aux f n acc = digits_aux f n "" ++ acc.
Proof.
  revert n acc; induction f as [|f IH]; intros n acc; simpl; [reflexivity|].
  destruct (Z.ltb n 10); [reflexivity|].
  rewrite (IH _ (String _ acc)), (IH _ (String _ "")), append_assoc_str.
  reflexivity.
Qed.

Lemma digits_aux_fuel f : forall n acc g,
  0 <= n < 10 ^ Z.of_nat (S f) -> (S f <= g)%nat ->
  digits_aux g n acc = digits_aux (S f) n acc.
Proof.
  induction f as [|f IH]; intros n acc g Hn Hg;
    (destruct g as [|g]; [lia|]); simpl.
  - simpl in Hn. destruct (Z.ltb_spec n 10); [reflexivity|lia].
  - destruct (Z.ltb n 10) eqn:E; [reflexivity|].
    apply Z.ltb_ge in E.
    apply IH; [|lia].
    split; [apply Z.div_pos; lia|].
    apply Z.div_lt_upper_bound; [lia|].
    rewrite Nat2Z.inj_succ, Z.pow_succ_r in Hn by lia. lia.
Qed.

Lemma toDecimal_fuel n :
  0 <= n -> n < 10 ^ Z.of_nat (S (Z.to_nat (Z.log2 n))).
Proof.
  intros Hn.
  rewrite Nat2Z.inj_succ, Z2Nat.id by apply Z.log2_nonneg.
  apply Z.lt_le_trans with (2 ^ Z.succ (Z.log2 n)).
  - destruct (Z.eq_dec n 0) as [->|Hne]; [reflexivity|].
    apply Z.log2_spec; lia.
  - apply Z.pow_le_mono_l. pose proof (Z.log2_nonneg n); lia.
Qed.

Lemma toDecimal_digits_aux n f :
  0 <= n < 10 ^ Z.of_nat (S f) -> toDecimal n = digits_aux (S f) n "".
Proof.
  intros Hn. unfold toDecimal.
  set (k := Z.to_nat (Z.log2 n)).
  pose proof (toDecimal_fuel n (proj1 Hn)) as Hk. fold k in Hk.
  rewrite <- (digits_aux_fuel k n "" (S (Nat.max k f))) by lia.
  apply digits_aux_fuel; [exact Hn|lia].
Qed.

Lemma toDecimal_lt10 n : 0 <= n < 10 -> toDecimal n = String (digit n) "".
Proof.
  intros Hn. rewrite (toDecimal_digits_aux n 0) by (simpl; lia).
  simpl. rewrite Z.mod_small by lia.
  destruct (Z.ltb_spec n 10); [reflexivity|lia].
Qed.

Lemma toDecimal_ge10 n :
  10 <= n -> toDecimal n = toDecimal (n / 10) ++ String (digit (n mod 10)) "".
Proof.
  intros Hn. unfold toDecimal at 1.
  pose proof (toDecimal_fuel n ltac:(lia)) as Hk.
  destruct (Z.to_nat (Z.log2 n)) as [|k] eqn:Ek.
  - simpl in Hk. lia.
  - rewrite digits_aux_S. destruct (Z.ltb_spec n 10); [lia|].
    rewrite digits_aux_app. f_equal. symmetry.
    apply toDecimal_digits_aux.
    split; [apply Z.div_pos; lia|].
    apply Z.div_lt_upper_bound; [lia|].
    rewrite (Nat2Z.inj_succ (S k)), Z.pow_succ_r in Hk by lia. lia.
Qed.

Lemma toDecimal_nonempty n : 0 <= n -> toDecimal n <> "".
Proof.
  intros Hn. destruct (Z.ltb_spec n 10).
  - rewrite toDecimal_lt10 by lia. discriminate.
  - rewrite toDecimal_ge10 by lia.
    destruct (toDecimal (n / 10)); discriminate.
Qed.

Lemma digitValue_digit d : 0 <= d < 10 -> digitValue (digit d) = Some d.
Proof.
  intros Hd.
  assert (d = 0 \/ d = 1 \/ d = 2 \/ d = 3 \/ d = 4 \/ d = 5 \/ d = 6 \/
          d = 7 \/ d = 8 \/ d = 9) as H by lia.
  repeat destruct H as [->|H]; try reflexivity; subst; reflexivity.
Qed.

Lemma decimalValue_aux_app acc s t :
  decimalValue_aux acc (s ++ t) =
  match decimalValue_aux acc s with
  | Some v => decimalValue_aux v t
  | None => None
  end.
Proof.
  revert acc; induction s as [|c s IH]; intros acc; simpl; [reflexivity|].
  destruct (digitValue c); [apply IH|reflexivity].
Qed.

Lemma decimalValue_aux_toDecimal_bounded (k : nat) : forall n,
  0 <= n < Z.of_nat k -> decimalValue_aux 0 (toDecimal n) = Some n.
Proof.
  induction k as [|k IH]; intros n Hn; [lia|].
  destruct (Z.ltb_spec n 10).
  - rewrite toDecimal_lt10 by lia. cbn [decimalValue_aux].
    rewrite digitValue_digit by lia. f_equal; lia.
  - rewrite toDecimal_ge10 by lia.
    rewrite decimalValue_aux_app, IH.
    + cbn [decimalValue_aux].
      rewrite digitValue_digit by (apply Z.mod_pos_bound; lia).
      f_equal. symmetry. apply Z.div_mod. lia.
    + split; [apply Z.div_pos; lia|].
      apply Z.lt_le_trans with n; [apply Z.div_lt; lia|lia].
Qed.

Lemma decimalValue_toDecimal n : 0 <= n -> decimalValue (toDecimal n) = Some n.
Proof.
  intros Hn. unfold decimalValue.
  pose proof (toDecimal_nonempty n Hn).
  rewrite <- (decimalValue_aux_toDecimal_bounded (S (Z.to_nat n)) n) by lia.
  destruct (toDecimal n); [congruence|reflexivity].
Qed.

Lemma toFixed1_split p q :
  0 < q -> 10 <= (2 * p * 10 + q) / (2 * q) ->
  let n := (2 * p * 10 + q) / (2 * q) in
  toFixed 1 p q = toDecimal (n / 10) ++ "." ++ toDecimal (n mod 10).
Proof.
  intros Hq Hn n. unfold toFixed. fold n.
  change (10 ^ Z.of_nat 1) with 10. fold n.
  rewrite (toDecimal_ge10 n Hn).
  rewrite (toDecimal_lt10 (n mod 10)) by (apply Z.mod_pos_bound; lia).
  set (D := toDecimal (n / 10)).
  assert (HD : D <> "") by (apply toDecimal_nonempty, Z.div_pos; lia).
  simpl Nat.eqb. cbv iota beta.
  set (m := D ++ String (digit (n mod 10)) "").
  assert (Hm : String.length m = S (String.length D))
    by (unfold m; rewrite length_append_str; simpl; lia).
  assert (HlD : String.length D <> 0%nat) by (destruct D; simpl; congruence).
  replace (Nat.leb (String.length m) 1) with false
    by (symmetry; apply Nat.leb_gt; lia).
  replace (String.length m - 1)%nat with (String.length D) by lia.
  unfold m. rewrite substring_prefix, substring_suffix. reflexivity.
Qed.

Lemma toFixed0 p q : toFixed 0 p q = toDecimal ((2 * p + q) / (2 * q)).
Proof. unfold toFixed. cbn -[toDecimal Z.mul Z.add Z.div]. now rewrite Z.mul_1_r. Qed.

Lemma nearest_bounds p q :
  0 < q ->
  (2 * p + q) / (2 * q) * (2 * q) - q <= 2 * p < (2 * p + q) / (2 * q) * (2 * q) + q.
Proof.
  intros Hq.
  pose proof (Z.div_mod (2 * p + q) (2 * q) ltac:(lia)).
  pose proof (Z.mod_pos_bound (2 * p + q) (2 * q) ltac:(lia)).
  lia.
Qed.

(** Claim C5: [formatSize] maps 0 to "0", a count below 1024 to its decimal
    numeral, a count below 1 MiB to kibibytes rounded to one decimal with
    suffix K, below 1 GiB to mebibytes rounded to an integer with suffix M,
    and larger counts to gibibytes rounded to an integer with suffix G;
    [toDecimal] is the decimal numeral of its argument; and the four sample
    values of the spec come out as stated. *)
Theorem formatSize_spec (bytes : Z) (Hbytes : 0 <= bytes) :
  formatSize 0 = "0" /\
  (bytes < 1024 -> formatSize bytes = toDecimal bytes) /\
  (1024 <= bytes < 1024 * 1024 ->
     exists n, n * 2048 - 1024 <= 20 * bytes < n * 2048 + 1024 /\
       formatSize bytes = toDecimal (n / 10) ++ "." ++ toDecimal (n mod 10) ++ "K") /\
  (1024 * 1024 <= bytes < 1024 * 1024 * 1024 ->
     exists n, n * 2 ^ 21 - 2 ^ 20 <= 2 * bytes < n * 2 ^ 21 + 2 ^ 20 /\
       formatSize bytes = toDecimal n ++ "M") /\
  (1024 * 1024 * 1024 <= bytes ->
     exists n, n * 2 ^ 31 - 2 ^ 30 <= 2 * bytes < n * 2 ^ 31 + 2 ^ 30 /\
       formatSize bytes = toDecimal n ++ "G") /\
  (forall n, 0 <= n -> decimalValue (toDecimal n) = Some n) /\
  formatSize 500 = "500" /\ formatSize 2048 = "2.0K" /\
  formatSize 5242880 = "5M" /\ formatSize 3221225472 = "3G".
Proof.
  repeat split.
  - intros Hlt. unfold formatSize.
    destruct (Z.eqb_spec bytes 0) as [->|Hne]; [reflexivity|].
    destruct (Z.ltb_spec bytes 1024); [reflexivity|lia].
  - intros [Hlo Hhi].
    exists ((2 * bytes * 10 + 1024) / (2 * 1024)). split; [split|].
    + pose proof (nearest_bounds (bytes * 10) 1024 ltac:(lia)) as Hb.
      replace (2 * (bytes * 10)) with (2 * bytes * 10) in Hb by lia. lia.
    + pose proof (nearest_bounds (bytes * 10) 1024 ltac:(lia)) as Hb.
      replace (2 * (bytes * 10)) with (2 * bytes * 10) in Hb by lia. lia.
    + unfold formatSize.
      destruct (Z.eqb_spec bytes 0); [lia|].
      destruct (Z.ltb_spec bytes 1024); [lia|].
      destruct (Z.ltb_spec bytes (1024 * 1024)); [|lia].
      rewrite toFixed1_split; [now rewrite !append_assoc_str|lia|].
      apply Z.div_le_lower_bound; lia.
  - intros [Hlo Hhi].
    exists ((2 * bytes + 1024 * 1024) / (2 * (1024 * 1024))).
    pose proof (nearest_bounds bytes (1024 * 1024) ltac:(lia)) as Hb.
    split; [split; lia|].
    unfold formatSize.
    destruct (Z.eqb_spec bytes 0); [lia|].
    destruct (Z.ltb_spec bytes 1024); [lia|].
    destruct (Z.ltb_spec bytes (1024 * 1024)); [lia|].
    destruct (Z.ltb_spec bytes (1024 * 1024 * 1024)); [|lia].
    now rewrite toFixed0.
  - intros Hlo.
    exists ((2 * bytes + 1024 * 1024 * 1024) / (2 * (1024 * 1024 * 1024))).
    pose proof (nearest_bounds bytes (1024 * 1024 * 1024) ltac:(lia)) as Hb.
    split; [split; lia|].
    unfold formatSize.
    destruct (Z.eqb_spec bytes 0); [lia|].
    destruct (Z.ltb_spec bytes 1024); [lia|].
    destruct (Z.ltb_spec bytes (1024 * 1024)); [lia|].
    destruct (Z.ltb_spec bytes (1024 * 1024 * 1024)); [lia|].
    now rewrite toFixed0.
  - apply decimalValue_toDecimal.
Qed.

End FormatFacts.

(** ** Content resolver *)
Module ContentFacts.
Import Content.
Local Open Scope string_scope.

Lemma bind_some {A B} (m : M A) (k : A -> M B) b :
  bind m k = Some b -> exists a, m = Some a /\ k a = Some b.
Proof. destruct m as [a|]; simpl; [eauto|discriminate]. Qed.

Ltac inv_bind H a Ha Hk := apply bind_some in H; destruct H as [a [Ha Hk]].

Lemma substring_zero_len k s : substring k 0 s = "".
Proof. revert s; induction k as [|k IH]; intros [|c s]; simpl; auto. Qed.

Lemma substring_whole s : substring 0 (String.length s) s = s.
Proof. induction s as [|c s IH]; simpl; [reflexivity|now rewrite IH]. Qed.

Lemma substring_split s : forall k,
  (k <= String.length s)%nat ->
  substring 0 k s ++ substring k (String.length s - k) s = s.
Proof.
  induction s as [|c s IH]; intros [|k] Hk; simpl in *; try lia.
  - reflexivity.
  - f_equal. apply substring_whole.
  - f_equal. apply IH. lia.
Qed.

Lemma endsWith_app s suf :
  endsWith s suf = true -> exists p, s = p ++ suf.
Proof.
  unfold endsWith. intros H. apply andb_prop in H as [Hle Heq].
  apply Nat.leb_le in Hle. apply String.eqb_eq in Heq.
  exists (substring 0 (String.length s - String.length suf) s).
  pose proof (substring_split s (String.length s - String.length suf)
                ltac:(lia)) as Hs.
  replace (String.length s - (String.length s - String.length suf))%nat
    with (String.length suf) in Hs by lia.
  rewrite Heq in Hs. symmetry. exact Hs.
Qed.

Lemma lastDot_aux_app s t i acc :
  lastDot_aux (s ++ t) i acc =
  lastDot_aux t (i + String.length s) (lastDot_aux s i acc).
Proof.
  revert i acc; induction s as [|c s IH]; intros i acc; simpl.
  - now rewrite Nat.add_0_r.
  - rewrite IH. f_equal. lia.
Qed.

Lemma extname_suffix p suf :
  p <> "" -> (2 <= String.length suf)%nat ->
  (forall i acc, lastDot_aux suf i acc = Some i) ->
  extname (p ++ suf) = suf.
Proof.
  intros Hp Hs Hdot. unfold extname.
  rewrite lastDot_aux_app, Hdot. simpl.
  destruct (String.length p) as [|lp] eqn:El; [destruct p; simpl in El; congruence|].
  destruct (String.eqb (p ++ suf) "..") eqn:Edd.
  - apply String.eqb_eq in Edd.
    assert (Hl := f_equal String.length Edd).
    rewrite FormatFacts.length_append_str, El in Hl. simpl in Hl. lia.
  - rewrite <- El, FormatFacts.length_append_str.
    replace (String.length p + String.length suf - String.length p)%nat
      with (String.length suf) by lia.
    rewrite FormatFacts.substring_suffix. apply substring_whole.
Qed.

(** A post file name has a non-empty extension unless it is ".md" or ".mdx". *)
Lemma extname_post_name item :
  isPostName item = true -> item <> ".md" -> item <> ".mdx" ->
  extname item <> "".
Proof.
  unfold isPostName. intros H Hmd Hmdx.
  destruct (endsWith item ".mdx") eqn:E1.
  - destruct (endsWith_app _ _ E1) as [p ->].
    destruct (String.string_dec p "") as [->|Hp]; [simpl in Hmdx; congruence|].
    rewrite extname_suffix; [discriminate|exact Hp|simpl; lia|reflexivity].
  - simpl in H. destruct (endsWith_app _ _ H) as [p ->].
    destruct (String.string_dec p "") as [->|Hp]; [simpl in Hmd; congruence|].
    rewrite extname_suffix; [discriminate|exact Hp|simpl; lia|reflexivity].
Qed.

Lemma orEmpty_some v : orEmpty (Some v) = v.
Proof. unfold orEmpty, truthy. destruct (String.eqb_spec v ""); auto. Qed.

Section WithRuntime.
Variable matter : string -> option (FrontMatter * string).
Variable toTime : string -> option Z.
Variable isoDay : Z -> string.
Variable now : Z.

(** Claim C6: on a path that does not exist, or exists and is not a
    directory, [readDirectory] returns the empty list (and throws nothing). *)
Theorem readDirectory_not_directory (root : entries) (segs : list string) :
  (resolve (Dir root) segs = None \/
   exists raw mtime, resolve (Dir root) segs = Some (File raw mtime)) ->
  readDirectory matter toTime isoDay now root segs = Some [].
Proof.
  intros [H | (raw & mt & H)]; unfold readDirectory; rewrite H; reflexivity.
Qed.

Lemma listEntries_shape segs es l e :
  listEntries matter toTime isoDay now segs es = Some l -> In e l ->
  (isDirectory e = true /\ extension e = "" /\
     exists item sub, inEntries item (Dir sub) es /\ name e = item ++ "/" /\
       getDirectoryDate matter toTime isoDay now sub = Some (date e) /\
       getDirectoryDescription matter sub = Some (description e)) \/
  (isDirectory e = false /\ extension e = extname (name e) /\
     isPostName (name e) = true /\
     exists raw mtime, inEntries (name e) (File raw mtime) es).
Proof.
  revert l; induction es as [|item n rest IH]; intros l Hl Hin; simpl in Hl.
  - injection Hl as <-. destruct Hin.
  - destruct n as [sub | raw mt].
    + inv_bind Hl d Hd Hl. inv_bind Hl desc Hdesc Hl. inv_bind Hl ents Htl Hl.
      injection Hl as <-.
      destruct Hin as [<- | Hin].
      * left. simpl. repeat split; [].
        exists item, sub. simpl. repeat split; auto.
      * destruct (IH _ Htl Hin) as [(H1 & H2 & it & sb & H3 & H4) |
                                    (H1 & H2 & H3 & raw & mt & H4)].
        -- left. repeat split; auto. exists it, sb. simpl. tauto.
        -- right. repeat split; auto. exists raw, mt. simpl. tauto.
    + destruct (isPostName item) eqn:Ep; [|].
      * inv_bind Hl db Hdb Hl. destruct db as [data body].
        inv_bind Hl d Hd Hl. inv_bind Hl ents Htl Hl. injection Hl as <-.
        destruct Hin as [<- | Hin].
        -- right. simpl. repeat split; auto. exists raw, mt. simpl. tauto.
        -- destruct (IH _ Htl Hin) as [(H1 & H2 & it & sb & H3 & H4) |
                                       (H1 & H2 & H3 & raw' & mt' & H4)].
           ++ left. repeat split; auto. exists it, sb. simpl. tauto.
           ++ right. repeat split; auto. exists raw', mt'. simpl. tauto.
      * destruct (IH _ Hl Hin) as [(H1 & H2 & it & sb & H3 & H4) |
                                   (H1 & H2 & H3 & raw' & mt' & H4)].
        -- left. repeat split; auto. exists it, sb. simpl. tauto.
        -- right. repeat split; auto. exists raw', mt'. simpl. tauto.
Qed.

(** Claim C7 (as amended): every entry of a listing is either a directory
    with an empty extension, or a non-directory whose extension is
    [path.extname] of its name, whose name ends in ".mdx" or ".md", and
    which is a file child of the listed directory; that extension is
    non-empty unless the name is exactly ".md" or ".mdx". *)
Theorem readDirectory_entry_kind (root : entries) (segs : list string)
    (l : list DirectoryEntry) (e : DirectoryEntry) :
  readDirectory matter toTime isoDay now root segs = Some l -> In e l ->
  (isDirectory e = true /\ extension e = "") \/
  (isDirectory e = false /\ extension e = extname (name e) /\
   isPostName (name e) = true /\
   (exists es raw mtime, resolve (Dir root) segs = Some (Dir es) /\
                         inEntries (name e) (File raw mtime) es) /\
   (name e <> ".md" -> name e <> ".mdx" -> extension e <> "")).
Proof.
  unfold readDirectory. intros Hl Hin.
  destruct (resolve (Dir root) segs) as [[es|raw mt]|] eqn:Er;
    [| injection Hl as <-; destruct Hin | injection Hl as <-; destruct Hin].
  destruct (listEntries_shape _ _ _ _ Hl Hin) as
    [(H1 & H2 & _) | (H1 & H2 & H3 & raw & mt & H4)].
  - left; auto.
  - right. repeat split; auto.
    + exists es, raw, mt. auto.
    + intros Hmd Hmdx. rewrite H2. apply extname_post_name; assumption.
Qed.

(** Claim C3 (as amended): for the file [readPost] reads (the ".mdx" file
    when present, else the ".md" file) whose metadata block parses, a
    written date that does not parse as a date makes [readPost] throw;
    otherwise the returned title is the written title when non-empty and the
    final path segment when absent or empty; the description is the written
    one, or "" when absent; the date is the written one when it is written
    as an ISO calendar day (so that [new Date(v).toISOString()] starts with
    it), or "" when absent; the content is the body after the block. *)
Theorem readPost_fields (root : entries) (segs : list string)
    (raw : string) (mtime : Z) (fm : FrontMatter) (body : string) :
  (resolve (Dir root) (withExt segs ".mdx") = Some (File raw mtime) \/
   (resolve (Dir root) (withExt segs ".mdx") = None /\
    resolve (Dir root) (withExt segs ".md") = Some (File raw mtime))) ->
  matter raw = Some (fm, body) ->
  ((exists v, truthy (fm_date fm) = Some v /\ toTime v = None) ->
   readPost matter toTime isoDay root segs = None) /\
  ((forall v, truthy (fm_date fm) = Some v -> toTime v <> None) ->
   exists p, readPost matter toTime isoDay root segs = Some (Some p) /\
    (forall t, fm_title fm = Some t -> t <> "" -> title p = t) /\
    (fm_title fm = None \/ fm_title fm = Some "" -> title p = basename segs) /\
    (forall d, fm_description fm = Some d -> post_description p = d) /\
    (fm_description fm = None -> post_description p = "") /\
    (forall v, fm_date fm = Some v ->
       v = "" \/ isoOfDateValue toTime isoDay v = Some v -> post_date p = v) /\
    (fm_date fm = None -> post_date p = "") /\
    content p = body).
Proof.
  intros Hfile Hm.
  assert (Hread : readPost matter toTime isoDay root segs =
                  readPostFile matter toTime isoDay segs raw).
  { unfold readPost, existsSync.
    destruct Hfile as [Hx | [Hx Hd]]; rewrite Hx; [rewrite Hx; reflexivity|].
    rewrite Hd, Hd. reflexivity. }
  rewrite Hread. unfold readPostFile, readPostFileAs. rewrite Hm. simpl. split.
  - intros (v & Ev & Hv). rewrite Ev. simpl. unfold isoOfDateValue. rewrite Hv.
    reflexivity.
  - intros Hok.
    assert (Hd : exists d,
               match truthy (fm_date fm) with
               | Some v => isoOfDateValue toTime isoDay v
               | None => ret ""
               end = Some d /\
               (forall v, fm_date fm = Some v ->
                  v = "" \/ isoOfDateValue toTime isoDay v = Some v -> d = v) /\
               (fm_date fm = None -> d = "")).
    { destruct (fm_date fm) as [v|] eqn:Ef; cbn [truthy].
      - destruct (String.eqb_spec v "") as [->|Hne].
        + exists "". split; [reflexivity|].
          split; [intros v' E _; congruence|discriminate].
        + unfold isoOfDateValue. destruct (toTime v) as [t|] eqn:Et.
          * exists (isoDay t). split; [reflexivity|]. split; [|discriminate].
            intros v' E [Hv'|Hv']; injection E as <-; [contradiction|].
            unfold isoOfDateValue in Hv'. rewrite Et in Hv'. unfold ret in Hv'. congruence.
          * exfalso. apply (Hok v); [|exact Et].
            cbn [truthy]. destruct (String.eqb_spec v ""); congruence.
      - exists "". split; [reflexivity|]. split; [discriminate|reflexivity]. }
    destruct Hd as (d & Hd & Hd1 & Hd2).
    rewrite Hd. simpl.
    eexists; split; [reflexivity|]. simpl.
    repeat split.
    + intros t E Ht. rewrite E. simpl. destruct (String.eqb_spec t ""); congruence.
    + intros [E|E]; rewrite E; reflexivity.
    + intros d' E. now rewrite E, orEmpty_some.
    + intros E. now rewrite E.
    + exact Hd1.
    + exact Hd2.
Qed.

(** [readPost] reads the entry at "path.mdx" whenever one exists, and the
    entry at "path.md" otherwise: a file there gives the post built from it
    (so with both files the data comes from ".mdx"), a directory there makes
    it throw (EISDIR), and with neither it returns [null]. [isPost] holds
    exactly when an entry, file or directory, exists at one of the two. *)
Theorem readPost_isPost_priority (root : entries) (segs : list string) :
  (forall raw mt,
     resolve (Dir root) (withExt segs ".mdx") = Some (File raw mt) ->
     readPost matter toTime isoDay root segs = readPostFile matter toTime isoDay segs raw) /\
  (forall sub,
     resolve (Dir root) (withExt segs ".mdx") = Some (Dir sub) ->
     readPost matter toTime isoDay root segs = None) /\
  (forall raw mt,
     resolve (Dir root) (withExt segs ".mdx") = None ->
     resolve (Dir root) (withExt segs ".md") = Some (File raw mt) ->
     readPost matter toTime isoDay root segs = readPostFile matter toTime isoDay segs raw) /\
  (forall sub,
     resolve (Dir root) (withExt segs ".mdx") = None ->
     resolve (Dir root) (withExt segs ".md") = Some (Dir sub) ->
     readPost matter toTime isoDay root segs = None) /\
  (resolve (Dir root) (withExt segs ".mdx") = None ->
   resolve (Dir root) (withExt segs ".md") = None ->
   readPost matter toTime isoDay root segs = Some None) /\
  (isPost root segs = true <->
   resolve (Dir root) (withExt segs ".mdx") <> None \/
   resolve (Dir root) (withExt segs ".md") <> None).
Proof.
  unfold readPost, isPost, existsSync. split; [|split; [|split; [|split; [|split]]]].
  - intros raw mt H1. rewrite H1, H1. reflexivity.
  - intros sub H1. rewrite H1, H1. reflexivity.
  - intros raw mt H1 H2. rewrite H1, H2, H2. reflexivity.
  - intros sub H1 H2. rewrite H1, H2, H2. reflexivity.
  - intros H1 H2. rewrite H1, H2. reflexivity.
  - destruct (resolve (Dir root) (withExt segs ".mdx"));
    destruct (resolve (Dir root) (withExt segs ".md")); simpl;
      split; intros H; try discriminate; try (left; discriminate);
      try (right; discriminate); destruct H as [H|H]; congruence.
Qed.

Lemma postTime_cons_inv item n rest t :
  postTime matter toTime (ECons item n rest) t ->
  (exists raw mtime data body,
     n = File raw mtime /\ isPostName item = true /\
     matter raw = Some (data, body) /\
     match truthy (fm_date data) with
     | Some v => toTime v = Some t
     | None => t = mtime
     end) \/ postTime matter toTime rest t.
Proof.
  intros (it & raw & mt & data & body & Hin & Hp & Hm & Ht).
  destruct Hin as [[-> ->] | Hin].
  - left. exists raw, mt, data, body. auto.
  - right. exists it, raw, mt, data, body. auto.
Qed.

Lemma postTime_cons item n rest t :
  postTime matter toTime rest t -> postTime matter toTime (ECons item n rest) t.
Proof.
  intros (it & raw & mt & data & body & Hin & Hp & Hm & Ht).
  exists it, raw, mt, data, body. simpl. auto.
Qed.

Lemma latestPostTime_spec es : forall acc r,
  latestPostTime matter toTime es acc = Some r ->
  acc <= r /\ (r = acc \/ postTime matter toTime es r) /\
  (forall t, postTime matter toTime es t -> t <= r).
Proof.
  induction es as [|item n rest IH]; intros acc r H; simpl in H.
  - injection H as <-. repeat split; [lia|now left|].
    intros t (it & raw & mt & data & body & Hin & _). destruct Hin.
  - destruct n as [sub | raw mt].
    + destruct (IH _ _ H) as (H1 & H2 & H3). repeat split; [exact H1| |].
      * destruct H2 as [->|H2]; [now left|right; now apply postTime_cons].
      * intros t Ht. apply postTime_cons_inv in Ht.
        destruct Ht as [(? & ? & ? & ? & E & _) | Ht]; [discriminate|auto].
    + destruct (isPostName item) eqn:Ep.
      * inv_bind H db Hdb H. destruct db as [data body].
        set (d := match truthy (fm_date data) with
                  | Some v => toTime v | None => Some mt end) in H.
        set (acc' := match d with
                     | Some t => if Z.gtb t acc then t else acc
                     | None => acc end) in H.
        destruct (IH _ _ H) as (H1 & H2 & H3).
        assert (Hacc : acc <= acc').
        { unfold acc'. destruct d as [t|]; [|lia].
          destruct (Z.gtb_spec t acc); lia. }
        assert (Hd : forall t, d = Some t ->
                       postTime matter toTime (ECons item (File raw mt) rest) t).
        { intros t Et. exists item, raw, mt, data, body. simpl.
          repeat split; auto. unfold d in Et.
          destruct (truthy (fm_date data)); [exact Et|congruence]. }
        repeat split; [lia| |].
        -- destruct H2 as [->|H2]; [|right; now apply postTime_cons].
           unfold acc'. destruct d as [t|] eqn:Edt; [|now left].
           destruct (Z.gtb_spec t acc); [right; now apply Hd|now left].
        -- intros t Ht. apply postTime_cons_inv in Ht.
           destruct Ht as [(raw' & mt' & data' & body' & E & _ & Hm' & Ht) | Ht];
             [|auto].
           injection E as <- <-. rewrite Hdb in Hm'. injection Hm' as <- <-.
           assert (d = Some t).
           { unfold d. destruct (truthy (fm_date data)); congruence. }
           assert (t <= acc').
           { unfold acc'. rewrite H0. destruct (Z.gtb_spec t acc); lia. }
           lia.
      * destruct (IH _ _ H) as (H1 & H2 & H3). repeat split; [exact H1| |].
        -- destruct H2 as [->|H2]; [now left|right; now apply postTime_cons].
        -- intros t Ht. apply postTime_cons_inv in Ht.
           destruct Ht as [(? & ? & ? & ? & _ & E & _) | Ht];
             [congruence|auto].
Qed.

(** The date of a subdirectory's entry is the ISO day of the latest
    effective time among its direct post files (frontmatter date when
    present, else mtime; invalid dates are skipped) when one of them is
    after the epoch; it is the current day when the subdirectory has no
    direct post file, and also when every effective time is at or before
    the epoch (the [new Date(0)] sentinel). *)
Theorem subdirectory_date (root : entries) (segs : list string)
    (l : list DirectoryEntry) (e : DirectoryEntry) :
  readDirectory matter toTime isoDay now root segs = Some l -> In e l ->
  isDirectory e = true ->
  exists es item sub,
    resolve (Dir root) segs = Some (Dir es) /\ inEntries item (Dir sub) es /\
    name e = item ++ "/" /\
    ((exists t, postTime matter toTime sub t /\ 0 < t) ->
     exists t, postTime matter toTime sub t /\
       (forall t', postTime matter toTime sub t' -> t' <= t) /\
       date e = isoDay t) /\
    ((forall it raw mtime, inEntries it (File raw mtime) sub -> isPostName it = false) ->
     date e = isoDay now) /\
    ((forall t, postTime matter toTime sub t -> t <= 0) -> date e = isoDay now).
Proof.
  unfold readDirectory. intros Hl Hin Hdir.
  destruct (resolve (Dir root) segs) as [[es|raw mt]|] eqn:Er;
    [| injection Hl as <-; destruct Hin | injection Hl as <-; destruct Hin].
  destruct (listEntries_shape _ _ _ _ Hl Hin) as
    [(H1 & H2 & item & sub & H3 & H4 & H5 & H6) | (H1 & _)];
    [|congruence].
  exists es, item, sub. repeat split; auto.
  - intros (t0 & Ht0 & Hpos).
    unfold getDirectoryDate in H5. inv_bind H5 r Hr H5. injection H5 as H5.
    destruct (latestPostTime_spec _ _ _ Hr) as (R1 & R2 & R3).
    pose proof (R3 _ Ht0).
    destruct R2 as [R2|R2]; [lia|].
    exists r. repeat split; auto.
    rewrite <- H5. destruct (Z.eqb_spec r 0); [lia|reflexivity].
  - intros Hnone.
    unfold getDirectoryDate in H5. inv_bind H5 r Hr H5. injection H5 as H5.
    destruct (latestPostTime_spec _ _ _ Hr) as (R1 & R2 & R3).
    destruct R2 as [->|(it & raw & mt & data & body & Hi & Hp & _)].
    + rewrite <- H5. reflexivity.
    + rewrite (Hnone _ _ _ Hi) in Hp. discriminate.
  - intros Hle.
    unfold getDirectoryDate in H5. inv_bind H5 r Hr H5. injection H5 as H5.
    destruct (latestPostTime_spec _ _ _ Hr) as (R1 & R2 & R3).
    assert (Hr0 : r = 0) by (destruct R2 as [->|R2]; [reflexivity|specialize (Hle _ R2); lia]).
    rewrite <- H5, Hr0. reflexivity.
Qed.

End WithRuntime.

(** ** Path enumeration *)

Lemma reach_nonempty es n : ~ reach es [] n.
Proof. intros H; inversion H. Qed.

Lemma reach_cons_rest item n rest q m :
  reach rest q m -> reach (ECons item n rest) q m.
Proof.
  intros H; inversion H; subst.
  - apply reach_child. simpl. now right.
  - eapply reach_under; [simpl; right; eassumption | eassumption].
Qed.

Lemma reach_cons_inv item n rest q m :
  reach (ECons item n rest) q m ->
  (q = [item] /\ m = n) \/
  (exists sub q', n = Dir sub /\ q = item :: q' /\ reach sub q' m) \/
  reach rest q m.
Proof.
  intros H; inversion H as [es it m' Hin | es it sub p m' Hin Hr]; subst.
  - destruct Hin as [[-> ->] | Hin]; [now left|].
    right; right. now apply reach_child.
  - destruct Hin as [[-> ->] | Hin].
    + right; left. exists sub, p. auto.
    + right; right. eapply reach_under; eassumption.
Qed.

Lemma snoc_eq_cons {A} (pre : list A) x y q :
  (pre ++ [x])%list = y :: q ->
  (pre = [] /\ x = y /\ q = []) \/
  (exists pre', pre = y :: pre' /\ q = (pre' ++ [x])%list).
Proof.
  destruct pre as [|a pre]; simpl; intros H; injection H as <- <-.
  - now left.
  - right. now exists pre.
Qed.

Lemma walk_spec : forall es segs p,
  In p (walk es segs) <-> exists q, p = (segs ++ q)%list /\ Item es q.
Proof.
  set (W := fun es => forall segs p,
              In p (walk es segs) <-> exists q, p = (segs ++ q)%list /\ Item es q).
  apply (entries_mut
           (fun n => match n with Dir es => W es | File _ _ => True end)
           W); [auto|auto| |]; unfold W; clear W.
  - intros segs p; simpl; split; [intros []|].
    intros (q & _ & [(sub & Hr) | (pre & it & raw & mt & Hr & _)]);
      inversion Hr as [? ? ? Hin | ? ? ? ? ? Hin]; destruct Hin.
  - intros item [sub|raw mt] IHn rest IHrest segs p.
    + simpl. rewrite in_app_iff. split.
      * intros [<- | [Hin | Hin]].
        -- exists [item]. split; [reflexivity|].
           left. exists sub. apply reach_child. simpl. auto.
        -- apply IHn in Hin as (q & -> & Hq). exists (item :: q).
           split; [now rewrite <- app_assoc|].
           destruct Hq as [(s' & Hr) | (pre & it & raw & mt & Hr & Hp & ->)].
           ++ left. exists s'. eapply reach_under; [simpl; left; eauto|exact Hr].
           ++ right. exists (item :: pre), it, raw, mt. repeat split; auto.
              eapply reach_under; [simpl; left; eauto|exact Hr].
        -- apply IHrest in Hin as (q & -> & Hq). exists q. split; [reflexivity|].
           destruct Hq as [(s' & Hr) | (pre & it & raw & mt & Hr & Hp & ->)].
           ++ left. exists s'. now apply reach_cons_rest.
           ++ right. exists pre, it, raw, mt. repeat split; auto.
              now apply reach_cons_rest.
      * intros (q & -> & [(s' & Hr) | (pre & it & raw & mt & Hr & Hp & ->)]).
        -- apply reach_cons_inv in Hr as [[-> _] | [(s & q' & E & -> & Hr) | Hr]].
           ++ now left.
           ++ injection E as <-. right; left. apply IHn.
              exists q'. split; [now rewrite <- app_assoc|]. left; eauto.
           ++ right; right. apply IHrest. exists q. split; auto. left; eauto.
        -- apply reach_cons_inv in Hr as [[_ E] | [(s & q' & E & Eq & Hr) | Hr]];
             [discriminate| |].
           ++ injection E as <-.
              apply snoc_eq_cons in Eq as [(-> & -> & ->) | (pre' & -> & ->)].
              ** exfalso. eapply reach_nonempty; eassumption.
              ** right; left. apply IHn. exists (pre' ++ [slugOf it])%list.
                 split; [now rewrite <- !app_assoc|].
                 right. exists pre', it, raw, mt. auto.
           ++ right; right. apply IHrest. exists (pre ++ [slugOf it])%list.
              split; [reflexivity|]. right. exists pre, it, raw, mt. auto.
    + simpl. destruct (isPostName item) eqn:Ep; [simpl|]; split.
      * intros [<- | Hin].
        -- exists [slugOf item]. split; [reflexivity|].
           right. exists [], item, raw, mt. repeat split; auto.
           apply reach_child. simpl. auto.
        -- apply IHrest in Hin as (q & -> & Hq). exists q. split; [reflexivity|].
           destruct Hq as [(s' & Hr) | (pre & it & raw' & mt' & Hr & Hp & ->)].
           ++ left. exists s'. now apply reach_cons_rest.
           ++ right. exists pre, it, raw', mt'. repeat split; auto.
              now apply reach_cons_rest.
      * intros (q & -> & [(s' & Hr) | (pre & it & raw' & mt' & Hr & Hp & ->)]).
        -- apply reach_cons_inv in Hr as [[_ E] | [(s & q' & E & _) | Hr]];
             try discriminate.
           right. apply IHrest. exists q. split; auto. left; eauto.
        -- apply reach_cons_inv in Hr as [[Eq E] | [(s & q' & E & _) | Hr]];
             try discriminate.
           ++ apply app_eq_unit in Eq as [[-> Eit] | [_ E']]; [|discriminate].
              injection Eit as ->. now left.
           ++ right. apply IHrest. exists (pre ++ [slugOf it])%list.
              split; [reflexivity|]. right. exists pre, it, raw', mt'. auto.
      * intros Hin. apply IHrest in Hin as (q & -> & Hq). exists q.
        split; [reflexivity|].
        destruct Hq as [(s' & Hr) | (pre & it & raw' & mt' & Hr & Hp & ->)].
        -- left. exists s'. now apply reach_cons_rest.
        -- right. exists pre, it, raw', mt'. repeat split; auto.
           now apply reach_cons_rest.
      * intros (q & -> & [(s' & Hr) | (pre & it & raw' & mt' & Hr & Hp & ->)]).
        -- apply reach_cons_inv in Hr as [[_ E] | [(s & q' & E & _) | Hr]];
             try discriminate.
           apply IHrest. exists q. split; auto. left; eauto.
        -- apply reach_cons_inv in Hr as [[Eq E] | [(s & q' & E & _) | Hr]];
             try discriminate.
           ++ apply app_eq_unit in Eq as [[-> Eit] | [_ E']]; [|discriminate].
              injection Eit as ->. congruence.
           ++ apply IHrest. exists (pre ++ [slugOf it])%list.
              split; [reflexivity|]. right. exists pre, it, raw', mt'. auto.
Qed.

Lemma walk_length : forall es segs,
  List.length (walk es segs) = countItems es.
Proof.
  apply (entries_mut
           (fun n => match n with
                     | Dir es => forall segs, List.length (walk es segs) = countItems es
                     | File _ _ => True end)
           (fun es => forall segs, List.length (walk es segs) = countItems es));
    [auto|auto|reflexivity|].
  intros item [sub|raw mt] IHn rest IHrest segs; simpl.
  - rewrite length_app, IHn, IHrest. reflexivity.
  - destruct (isPostName item); simpl; rewrite IHrest; reflexivity.
Qed.

Lemma walk_prefix : forall es segs,
  walk es segs = map (fun q => segs ++ q)%list (walk es []).
Proof.
  apply (entries_mut
           (fun n => match n with
                     | Dir es => forall segs,
                         walk es segs = map (fun q => segs ++ q)%list (walk es [])
                     | File _ _ => True end)
           (fun es => forall segs,
              walk es segs = map (fun q => segs ++ q)%list (walk es [])));
    [auto|auto|reflexivity|].
  intros item [sub|raw mt] IHn rest IHrest segs; simpl.
  - rewrite map_app, (IHn (segs ++ [item])%list), (IHn [item]), IHrest, map_map.
    f_equal. f_equal. apply map_ext. intros q. now rewrite app_assoc.
  - destruct (isPostName item); simpl; rewrite IHrest; reflexivity.
Qed.

(** Claim C2 (as amended): [getAllPaths] lists the segment path of every
    directory below the root and the extension-stripped path of every post
    file below it, and nothing else; it has one element per directory and
    per post file; and it is the pre-order walk: a directory's own path,
    then its subtree under its name, then its later siblings. Paths may
    repeat: a directory and a post file, or a ".md" and a ".mdx" file,
    whose names share a stem give the same path. *)
Theorem getAllPaths_items (root : entries) :
  (forall p, In p (getAllPaths root) <->
     (exists sub, reach root p (Dir sub)) \/
     (exists pre item raw mtime,
        reach root (pre ++ [item])%list (File raw mtime) /\
        isPostName item = true /\ p = (pre ++ [slugOf item])%list)) /\
  List.length (getAllPaths root) = countItems root /\
  (forall item sub rest, root = ECons item (Dir sub) rest ->
     getAllPaths root =
       [item] :: map (cons item) (getAllPaths sub) ++ getAllPaths rest) /\
  (forall item raw mtime rest, root = ECons item (File raw mtime) rest ->
     getAllPaths root =
       if isPostName item then [slugOf item] :: getAllPaths rest
       else getAllPaths rest).
Proof.
  split; [|split; [|split]].
  - intros p. unfold getAllPaths. rewrite (walk_spec root [] p).
    split.
    + intros (q & -> & Hq). exact Hq.
    + intros Hq. exists p. split; [reflexivity|exact Hq].
  - apply walk_length.
  - intros item sub rest ->. unfold getAllPaths. simpl.
    rewrite (walk_prefix sub [item]). reflexivity.
  - intros item raw mt rest ->. reflexivity.
Qed.

End ContentFacts.
(** * Worked examples, counterexamples and witnesses *)
(** ** Type column, sort state and the mobile listing *)
Module ViewFacts.
Import Listing Content Indicator View.
Local Open Scope string_scope.

Lemma lowerAscii_dot : lowerAscii "."%char = "."%char.
Proof. reflexivity. Qed.

Lemma assoc_in k v l : assoc k l = Some v -> In v (map snd l).
Proof.
  induction l as [|[k' v'] l IH]; simpl; [discriminate|].
  destruct (String.eqb k k'); [intros H; injection H as ->; now left|].
  intros H; right; auto.
Qed.

(** An extension that is empty or starts with a dot, as [path.extname]
    returns, gives a file one of the five file indicators: the lookup never
    reaches a member inherited from [Object.prototype]. *)
Theorem getTypeIndicator_file (e : DirectoryEntry) :
  isDirectory e = false ->
  (extension e = "" \/ exists r, extension e = String "." r) ->
  exists s, getTypeIndicator e = IText s /\
            In s ["[TXT]"; "[PDF]"; "[IMG]"; "[CMP]"; "[ ]"].
Proof.
  intros Hd Hx. unfold getTypeIndicator. rewrite Hd.
  destruct Hx as [-> | (r & ->)].
  - exists "[ ]". split; [reflexivity|simpl; tauto].
  - cbn [toLowerCase]. rewrite lowerAscii_dot.
    destruct (assoc (String "." (toLowerCase r)) typeMap) as [v|] eqn:E.
    + exists v. split; [reflexivity|].
      apply assoc_in in E. simpl in E. simpl.
      repeat (destruct E as [<-|E]; [tauto|]). destruct E.
    + exists "[ ]". split; [|simpl; tauto]. reflexivity.
Qed.

Lemma SortColumn_eqb_spec a b : SortColumn_eqb a b = true <-> a = b.
Proof. destruct a, b; simpl; split; congruence. Qed.

(** [handleSort]: the clicked column becomes the sort column; a new column
    starts ascending; clicking the current column flips the order, and a
    second click restores the state. *)
Theorem handleSort_spec (c : SortColumn) (s : SortState) :
  sortColumn (handleSort c s) = c /\
  (sortColumn s <> c -> sortOrder (handleSort c s) = Asc) /\
  (sortColumn s = c ->
     sortOrder (handleSort c s) <> sortOrder s /\ handleSort c (handleSort c s) = s).
Proof.
  destruct s as [sc so]. unfold handleSort; simpl.
  destruct (SortColumn_eqb sc c) eqn:E.
  - apply SortColumn_eqb_spec in E as ->. simpl.
    assert (SortColumn_eqb c c = true) as -> by now apply SortColumn_eqb_spec.
    split; [reflexivity|split; [congruence|]].
    intros _. destruct so; split; (discriminate || reflexivity).
  - simpl. split; [reflexivity|split; [reflexivity|]].
    intros ->. assert (SortColumn_eqb c c = true) by now apply SortColumn_eqb_spec.
    congruence.
Qed.

(** The mobile listing orders entries exactly as the desktop listing does
    on the column of the same name. *)
Theorem sortMobile_desktop (localeCompare : string -> string -> Z)
    (entries : list DirectoryEntry) (c : MobileSortColumn) (ord : SortOrder) :
  sortMobile localeCompare entries c ord =
  sortEntries localeCompare entries (desktopColumn c) ord.
Proof. destruct c; reflexivity. Qed.

Section Sorted.

Variable A : Type.
Variable cmp : A -> A -> Z.
Hypothesis Hcons : consistent cmp.

Lemma sort_from_sorted l : forall acc,
  StronglySorted (fun a b => cmp a b <= 0) acc ->
  StronglySorted (fun a b => cmp a b <= 0) (sort_from cmp acc l).
Proof.
  induction l as [|x l IH]; intros acc Hs; simpl; [exact Hs|].
  apply IH. apply (ListingFacts.insert_sorted A cmp Hcons x acc Hs).
Qed.

Lemma insert_last x acc :
  Forall (fun y => cmp y x <= 0) acc -> insert cmp x acc = (acc ++ [x])%list.
Proof.
  induction acc as [|y acc IH]; intros H; simpl; [reflexivity|].
  inversion H as [|? ? Hy Hacc]; subst.
  pose proof (ListingFacts.cmp_opp A cmp Hcons x y).
  assert (E : Z.ltb (cmp x y) 0 = false) by (apply Z.ltb_ge; lia).
  rewrite E, IH by exact Hacc. reflexivity.
Qed.

Lemma StronglySorted_app_rel (R : A -> A -> Prop) l1 l2 :
  StronglySorted R (l1 ++ l2) -> forall a b, In a l1 -> In b l2 -> R a b.
Proof.
  induction l1 as [|x l1 IH]; simpl; intros Hs a b Ha Hb; [destruct Ha|].
  inversion Hs as [|? ? Hs' Hx]; subst.
  destruct Ha as [<-|Ha].
  - rewrite Forall_forall in Hx. apply Hx, in_or_app. now right.
  - now apply IH.
Qed.

Lemma sort_from_sorted_id l : forall acc,
  StronglySorted (fun a b => cmp a b <= 0) (acc ++ l) ->
  sort_from cmp acc l = (acc ++ l)%list.
Proof.
  induction l as [|x l IH]; intros acc Hs; simpl; [now rewrite app_nil_r|].
  rewrite insert_last.
  - rewrite IH; [now rewrite <- app_assoc|]. now rewrite <- app_assoc.
  - apply Forall_forall. intros y Hy.
    exact (StronglySorted_app_rel _ acc (x :: l) Hs y x Hy (or_introl eq_refl)).
Qed.

End Sorted.

(** With a consistent collation, the sorted listing is in order: every entry
    compares at most 0 with every later one. *)
Theorem sortEntries_sorted (localeCompare : string -> string -> Z)
    (Hlc : consistent localeCompare)
    (entries : list DirectoryEntry) (col : SortColumn) (ord : SortOrder) :
  StronglySorted (fun a b => compareEntries localeCompare col ord a b <= 0)
    (sortEntries localeCompare entries col ord).
Proof.
  apply sort_from_sorted; [|constructor].
  apply ListingFacts.compareEntries_consistent, Hlc.
Qed.

(** With a consistent collation, sorting an already sorted listing again on
    the same column and order changes nothing. *)
Theorem sortEntries_idempotent (localeCompare : string -> string -> Z)
    (Hlc : consistent localeCompare)
    (entries : list DirectoryEntry) (col : SortColumn) (ord : SortOrder) :
  sortEntries localeCompare (sortEntries localeCompare entries col ord) col ord =
  sortEntries localeCompare entries col ord.
Proof.
  pose proof (ListingFacts.compareEntries_consistent localeCompare col ord Hlc) as Hc.
  unfold sortEntries at 1, sort.
  apply (sort_from_sorted_id _ _ Hc _ []). simpl.
  apply sort_from_sorted; [exact Hc|constructor].
Qed.

End ViewFacts.

(** ** Pages, links and breadcrumbs *)
Module PageFacts.
Import Listing Content Tree Indicator View Route ContentFacts.
Local Open Scope string_scope.

(** *** Paths in a well-formed tree *)

Lemma resolve_app n p q :
  resolve n (p ++ q)%list =
  match resolve n p with Some m => resolve m q | None => None end.
Proof.
  revert n; induction p as [|s p IH]; intros n; simpl; [reflexivity|].
  destruct n as [es|raw mt]; [|reflexivity].
  destruct (lookup es s); [apply IH|reflexivity].
Qed.

Lemma resolve_child root segs es x :
  resolve (Dir root) segs = Some (Dir es) ->
  resolve (Dir root) (segs ++ [x])%list = lookup es x.
Proof.
  intros H. rewrite resolve_app, H. simpl.
  destruct (lookup es x); reflexivity.
Qed.

Lemma lookup_inEntries es item n : lookup es item = Some n -> inEntries item n es.
Proof.
  induction es as [|i m rest IH]; simpl; [discriminate|].
  destruct (String.eqb_spec i item) as [->|_].
  - intros H; injection H as <-. now left.
  - intros H; right; auto.
Qed.

Lemma inEntries_names item n es : inEntries item n es -> In item (names es).
Proof.
  induction es as [|i m rest IH]; simpl; [tauto|].
  intros [[-> _]|H]; [now left|right; auto].
Qed.

Lemma wfEntries_cons item n rest :
  wfEntries (ECons item n rest) = true ->
  validName item = true /\ ~ In item (names rest) /\ wfNode n = true /\
  wfEntries rest = true.
Proof.
  simpl. intros H.
  apply andb_prop in H as [H Hr]. apply andb_prop in H as [H Hn].
  apply andb_prop in H as [Hv Hnd].
  repeat split; auto.
  intros Hin. apply negb_true_iff in Hnd.
  assert (existsb (String.eqb item) (names rest) = true)
    by (apply existsb_exists; exists item; split; [exact Hin|apply String.eqb_refl]).
  congruence.
Qed.

Lemma names_valid es : wfEntries es = true ->
  forall it, In it (names es) -> validName it = true.
Proof.
  induction es as [|i m rest IH]; simpl; [tauto|].
  intros Hwf it Hit. apply wfEntries_cons in Hwf as (Hv & _ & _ & Hr).
  destruct Hit as [<-|Hit]; auto.
Qed.

Lemma inEntries_lookup es item n :
  wfEntries es = true -> inEntries item n es -> lookup es item = Some n.
Proof.
  induction es as [|i m rest IH]; simpl; [tauto|].
  intros Hwf Hin. apply wfEntries_cons in Hwf as (_ & Hnd & _ & Hr).
  destruct (String.eqb_spec i item) as [->|Hne].
  - destruct Hin as [[_ ->]|Hin]; [reflexivity|].
    exfalso. apply Hnd. eapply inEntries_names; eassumption.
  - destruct Hin as [[E _]|Hin]; [congruence|]. now apply IH.
Qed.

Lemma inEntries_wf es item n :
  wfEntries es = true -> inEntries item n es -> wfNode n = true.
Proof.
  induction es as [|i m rest IH]; simpl; [tauto|].
  intros Hwf Hin. apply wfEntries_cons in Hwf as (_ & _ & Hm & Hr).
  destruct Hin as [[_ <-]|Hin]; auto.
Qed.

Lemma resolve_wf_node n segs m :
  wfNode n = true -> resolve n segs = Some m -> wfNode m = true.
Proof.
  revert n; induction segs as [|s segs IH]; intros n Hn H; simpl in H.
  - now injection H as <-.
  - destruct n as [es|raw mt]; [|discriminate].
    destruct (lookup es s) as [m'|] eqn:E; [|discriminate].
    apply (IH m'); [|exact H].
    apply lookup_inEntries in E. eapply inEntries_wf; [exact Hn|exact E].
Qed.

Lemma resolve_wf root segs es :
  wfEntries root = true -> resolve (Dir root) segs = Some (Dir es) ->
  wfEntries es = true.
Proof. intros Hr H. exact (resolve_wf_node (Dir root) segs (Dir es) Hr H). Qed.

Lemma resolve_reach es p n :
  p <> [] -> resolve (Dir es) p = Some n -> reach es p n.
Proof.
  revert es; induction p as [|s p IH]; intros es Hp H; [congruence|].
  simpl in H. destruct (lookup es s) as [m|] eqn:E; [|discriminate].
  apply lookup_inEntries in E.
  destruct p as [|s' p'].
  - simpl in H. injection H as <-. now apply reach_child.
  - destruct m as [sub|raw mt]; [|discriminate].
    eapply reach_under; [exact E|]. apply IH; [discriminate|exact H].
Qed.

Lemma reach_resolve es p n :
  wfEntries es = true -> reach es p n -> resolve (Dir es) p = Some n.
Proof.
  intros Hwf Hr; revert Hwf.
  induction Hr as [es item n Hin | es item sub p n Hin Hr IH]; intros Hwf; simpl.
  - rewrite (inEntries_lookup _ _ _ Hwf Hin). reflexivity.
  - rewrite (inEntries_lookup _ _ _ Hwf Hin). simpl.
    apply IH. exact (inEntries_wf _ _ _ Hwf Hin).
Qed.

Lemma reach_prefix es p n :
  reach es p n -> forall k, (0 < k < List.length p)%nat ->
  exists sub, reach es (firstn k p) (Dir sub).
Proof.
  induction 1 as [es item n Hin | es item sub p n Hin Hr IH]; intros k Hk;
    simpl in Hk; [lia|].
  destruct k as [|[|k']]; [lia| |].
  - exists sub. simpl. now apply reach_child.
  - destruct (IH (S k') ltac:(lia)) as (s' & Hs').
    exists s'. simpl. eapply reach_under; [exact Hin|exact Hs'].
Qed.

(** *** Post file names and their slugs *)

Lemma withExt_snoc pre x ext :
  withExt (pre ++ [x])%list ext = (pre ++ [(x ++ ext)%string])%list.
Proof.
  unfold withExt. rewrite rev_app_distr. simpl. now rewrite rev_involutive.
Qed.

Lemma slugOf_mdx item : endsWith item ".mdx" = true -> slugOf item ++ ".mdx" = item.
Proof.
  intros H. unfold slugOf. rewrite H.
  destruct (endsWith_app _ _ H) as [p ->].
  rewrite FormatFacts.length_append_str.
  replace (String.length p + String.length ".mdx" - 4)%nat with (String.length p)
    by (simpl; lia).
  now rewrite FormatFacts.substring_prefix.
Qed.

Lemma slugOf_md item :
  endsWith item ".mdx" = false -> endsWith item ".md" = true ->
  slugOf item ++ ".md" = item.
Proof.
  intros H1 H2. unfold slugOf. rewrite H1, H2.
  destruct (endsWith_app _ _ H2) as [p ->].
  rewrite FormatFacts.length_append_str.
  replace (String.length p + String.length ".md" - 3)%nat with (String.length p)
    by (simpl; lia).
  now rewrite FormatFacts.substring_prefix.
Qed.

Lemma post_item_isPost root pre item raw mt :
  resolve (Dir root) (pre ++ [item])%list = Some (File raw mt) ->
  isPostName item = true -> isPost root (pre ++ [slugOf item])%list = true.
Proof.
  intros H Hp. unfold isPost, existsSync. rewrite !withExt_snoc.
  unfold isPostName in Hp.
  destruct (endsWith item ".mdx") eqn:E1.
  - rewrite slugOf_mdx by exact E1. now rewrite H.
  - simpl in Hp. rewrite (slugOf_md _ E1 Hp), H.
    destruct (resolve (Dir root) (pre ++ [(slugOf item ++ ".mdx")%string])%list); reflexivity.
Qed.

(** *** Strings of the view *)

Lemma hasSlash_app s t : hasSlash (s ++ t) = hasSlash s || hasSlash t.
Proof.
  induction s as [|c s IH]; simpl; [reflexivity|]. now rewrite IH, orb_assoc.
Qed.

Lemma validName_spec s : validName s = true -> s <> "" /\ hasSlash s = false.
Proof.
  unfold validName. intros H.
  apply andb_prop in H as [H H4]. apply andb_prop in H as [H _].
  apply andb_prop in H as [H1 _].
  apply negb_true_iff in H1, H4. split; [|exact H4].
  intros ->. discriminate.
Qed.

Lemma str_app_inv_r s t u : s ++ u = t ++ u -> s = t.
Proof.
  revert t; induction s as [|c s IH]; intros [|d t] H; simpl in H.
  - reflexivity.
  - exfalso. assert (Hl := f_equal String.length H). simpl in Hl.
    rewrite FormatFacts.length_append_str in Hl. lia.
  - exfalso. assert (Hl := f_equal String.length H). simpl in Hl.
    rewrite FormatFacts.length_append_str in Hl. lia.
  - injection H as -> H. f_equal. now apply IH.
Qed.

Lemma splitOn_word w t :
  hasSlash w = false -> splitOn "/" (w ++ String "/" t) = w :: splitOn "/" t.
Proof.
  induction w as [|c w IH]; intros H; [reflexivity|].
  simpl in H. apply orb_false_iff in H as [Hc Hw].
  simpl. rewrite Hc, IH by exact Hw. reflexivity.
Qed.

Lemma splitOn_single w : hasSlash w = false -> splitOn "/" w = [w].
Proof.
  induction w as [|c w IH]; intros H; [reflexivity|].
  simpl in H. apply orb_false_iff in H as [Hc Hw].
  simpl. rewrite Hc, IH by exact Hw. reflexivity.
Qed.

Lemma slash_app s : "/" ++ s = String "/" s.
Proof. reflexivity. Qed.

Lemma splitOn_join segs t :
  segs <> [] -> Forall (fun s => hasSlash s = false) segs ->
  splitOn "/" (joinPath segs ++ String "/" t) = (segs ++ splitOn "/" t)%list.
Proof.
  unfold joinPath. induction segs as [|x [|y ys] IH]; intros Hne Hf; [congruence| |].
  - inversion Hf; subst. simpl. now apply splitOn_word.
  - inversion Hf as [|? ? Hx Hrest]; subst.
    change (String.concat "/" (x :: y :: ys)) with (x ++ "/" ++ String.concat "/" (y :: ys)).
    rewrite !FormatFacts.append_assoc_str, slash_app.
    rewrite splitOn_word by exact Hx.
    rewrite IH by (discriminate || exact Hrest). reflexivity.
Qed.

Lemma filter_nonempty (l : list string) :
  Forall (fun s => s <> "") l ->
  filter (fun w => negb (String.eqb w "")) l = l.
Proof.
  induction 1 as [|x l Hx _ IH]; simpl; [reflexivity|].
  destruct (String.eqb_spec x ""); [congruence|]. simpl. now rewrite IH.
Qed.

Lemma filter_between (l : list string) :
  Forall (fun s => s <> "") l ->
  filter (fun w => negb (String.eqb w "")) ("" :: l ++ [""])%list = l.
Proof.
  intros Hn. simpl. rewrite filter_app, filter_nonempty by exact Hn.
  simpl. apply app_nil_r.
Qed.

Lemma pathSegments_listing segs :
  Forall (fun s => validName s = true) segs ->
  pathSegments ("/" ++ joinPath segs ++ "/") = segs.
Proof.
  intros Hv. destruct segs as [|x xs]; [reflexivity|].
  unfold pathSegments. cbn [append splitOn Ascii.eqb Bool.eqb].
  assert (Hf : Forall (fun s => hasSlash s = false) (x :: xs))
    by (eapply Forall_impl; [|exact Hv]; intros s Hs; apply validName_spec, Hs).
  assert (Hn : Forall (fun s => s <> "") (x :: xs))
    by (eapply Forall_impl; [|exact Hv]; intros s Hs; apply validName_spec, Hs).
  rewrite (splitOn_join (x :: xs) "") by (discriminate || exact Hf).
  apply filter_between, Hn.
Qed.

Lemma endsWith_slash s : endsWith (s ++ "/") "/" = true.
Proof.
  unfold endsWith. rewrite FormatFacts.length_append_str.
  change (String.length "/") with 1%nat.
  replace (String.length s + 1 - 1)%nat with (String.length s) by lia.
  rewrite FormatFacts.substring_suffix.
  replace (Nat.leb 1 (String.length s + 1)) with true
    by (symmetry; apply Nat.leb_le; lia).
  reflexivity.
Qed.

Lemma mapi_from_ext {A B} (f g : nat -> A -> B) l : forall i,
  (forall j x, f j x = g j x) -> mapi_from f i l = mapi_from g i l.
Proof.
  induction l as [|x l IH]; intros i H; simpl; [reflexivity|].
  now rewrite H, IH.
Qed.

Lemma listing_path_ne segs : "/" ++ joinPath segs ++ "/" <> "/".
Proof.
  simpl. intros H. injection H as H.
  assert (Hl := f_equal String.length H).
  rewrite FormatFacts.length_append_str in Hl. simpl in Hl. lia.
Qed.

(** *** Segments that name entries, through [path.join] *)

Lemma validName_full s :
  validName s = true ->
  s <> "" /\ String.eqb s "." = false /\ String.eqb s ".." = false /\ hasSlash s = false.
Proof.
  unfold validName. intros H.
  apply andb_prop in H as [H H4]. apply andb_prop in H as [H H3].
  apply andb_prop in H as [H1 H2].
  apply negb_true_iff in H1, H2, H3, H4. repeat split; auto.
  intros ->. discriminate.
Qed.

Lemma joinPath_cons2 y z zs : joinPath (y :: z :: zs) = y ++ "/" ++ joinPath (z :: zs).
Proof. reflexivity. Qed.

Lemma joinPath_snoc pre x :
  joinPath (pre ++ [x])%list = match pre with [] => x | _ => joinPath pre ++ "/" ++ x end.
Proof.
  induction pre as [|y ys IH]; [reflexivity|].
  change ((y :: ys) ++ [x])%list with (y :: (ys ++ [x]))%list.
  destruct ys as [|z zs]; [reflexivity|].
  change ((z :: zs) ++ [x])%list with (z :: (zs ++ [x]))%list.
  rewrite joinPath_cons2. change (z :: (zs ++ [x]))%list with ((z :: zs) ++ [x])%list.
  rewrite IH, joinPath_cons2, !FormatFacts.append_assoc_str. reflexivity.
Qed.

Lemma joinPath_withExt l ext : joinPath (withExt l ext) = joinPath l ++ ext.
Proof.
  induction l as [|x pre _] using rev_ind; [reflexivity|].
  rewrite withExt_snoc, !joinPath_snoc.
  destruct pre; [reflexivity|]. now rewrite !FormatFacts.append_assoc_str.
Qed.

Lemma validName_app x ext :
  validName x = true -> validName ext = true -> (2 <= String.length ext)%nat ->
  validName (x ++ ext) = true.
Proof.
  intros Hx He Hl. apply validName_spec in Hx as [Hx1 Hx2].
  apply validName_spec in He as [_ He2].
  assert (Hlen : (3 <= String.length (x ++ ext))%nat).
  { rewrite FormatFacts.length_append_str. destruct x; [congruence|simpl; lia]. }
  unfold validName. rewrite hasSlash_app, Hx2, He2.
  destruct (String.eqb_spec (x ++ ext) "") as [E|]; [rewrite E in Hlen; simpl in Hlen; lia|].
  destruct (String.eqb_spec (x ++ ext) ".") as [E|]; [rewrite E in Hlen; simpl in Hlen; lia|].
  destruct (String.eqb_spec (x ++ ext) "..") as [E|]; [rewrite E in Hlen; simpl in Hlen; lia|].
  reflexivity.
Qed.

Lemma Forall_withExt l ext :
  Forall (fun s => validName s = true) l -> validName ext = true ->
  (2 <= String.length ext)%nat ->
  Forall (fun s => validName s = true) (withExt l ext).
Proof.
  intros Hl He Hlen. induction l as [|x pre _] using rev_ind.
  - constructor; [exact He|constructor].
  - rewrite withExt_snoc. apply Forall_app in Hl as [Hpre Hx]. inversion Hx; subst.
    apply Forall_app. split; [exact Hpre|]. constructor; [|constructor].
    now apply validName_app.
Qed.

Lemma normSegs_plain above l :
  Forall (fun s => validName s = true) l ->
  forall stack, normSegs above stack l = (rev stack ++ l)%list.
Proof.
  induction 1 as [|w l Hw _ IH]; intros stack; simpl; [now rewrite app_nil_r|].
  destruct (validName_full _ Hw) as (Hw1 & Hw2 & Hw3 & _).
  destruct (String.eqb_spec w "") as [|_]; [contradiction|]. rewrite Hw2, Hw3. simpl.
  rewrite IH. simpl. now rewrite <- app_assoc.
Qed.

Lemma splitOn_joinPath l :
  l <> [] -> Forall (fun s => hasSlash s = false) l -> splitOn "/" (joinPath l) = l.
Proof.
  induction l as [|x [|y ys] IH]; intros Hne Hf; [congruence| |].
  - inversion Hf; subst. now apply splitOn_single.
  - inversion Hf as [|? ? Hx Hrest]; subst.
    rewrite joinPath_cons2, slash_app, splitOn_word by exact Hx.
    rewrite IH by (discriminate || exact Hrest). reflexivity.
Qed.

Lemma valid_noslash l :
  Forall (fun s => validName s = true) l -> Forall (fun s => hasSlash s = false) l.
Proof. apply Forall_impl. intros s Hs. apply validName_spec, Hs. Qed.

Lemma valid_nonempty l :
  Forall (fun s => validName s = true) l -> Forall (fun s => s <> "") l.
Proof. apply Forall_impl. intros s Hs. apply validName_spec, Hs. Qed.

Lemma contentSegs_valid l :
  Forall (fun s => validName s = true) l -> contentSegs (joinPath l) = l.
Proof.
  intros Hv. destruct l as [|x xs]; [reflexivity|].
  unfold contentSegs. rewrite splitOn_joinPath by (discriminate || now apply valid_noslash).
  now rewrite normSegs_plain.
Qed.

Lemma basenameStr_valid l :
  Forall (fun s => validName s = true) l -> basenameStr (joinPath l) = basename l.
Proof.
  intros Hv. destruct l as [|x xs]; [reflexivity|].
  unfold basenameStr. rewrite splitOn_joinPath by (discriminate || now apply valid_noslash).
  rewrite filter_nonempty by now apply valid_nonempty. reflexivity.
Qed.

Lemma lastIsSlash_app s t : t <> "" -> lastIsSlash (s ++ t) = lastIsSlash t.
Proof.
  intros Ht. induction s as [|c s IH]; [reflexivity|].
  change (String c s ++ t) with (String c (s ++ t)). rewrite <- IH.
  destruct (s ++ t) eqn:E; [|reflexivity].
  destruct s; simpl in E; [congruence|discriminate].
Qed.

Lemma lastIsSlash_noslash t : hasSlash t = false -> lastIsSlash t = false.
Proof.
  induction t as [|c t IH]; intros H; [reflexivity|].
  simpl in H. apply orb_false_iff in H as [Hc Ht].
  destruct t; [exact Hc|]. exact (IH Ht).
Qed.

Lemma normalize_valid l :
  l <> [] -> Forall (fun s => validName s = true) l -> normalize (joinPath l) = joinPath l.
Proof.
  intros Hne Hv.
  assert (Hj : joinPath l <> "").
  { destruct l as [|x [|y ys]]; [congruence| |].
    - inversion Hv; subst. now apply validName_spec.
    - rewrite joinPath_cons2. inversion Hv as [|? ? Hx _]; subst.
      apply validName_spec in Hx as [Hx _]. destruct x; [congruence|discriminate]. }
  assert (Habs : isAbsolute (joinPath l) = false).
  { destruct l as [|x xs]; [congruence|]. inversion Hv as [|? ? Hx _]; subst.
    apply validName_spec in Hx as [Hx1 Hx2].
    destruct x as [|c x]; [congruence|]. simpl in Hx2. apply orb_false_iff in Hx2 as [Hc _].
    destruct xs; [exact Hc|]. rewrite joinPath_cons2. exact Hc. }
  assert (Hlast : lastIsSlash (joinPath l) = false).
  { destruct l as [|x pre _] using rev_ind; [congruence|].
    apply Forall_app in Hv as [_ Hx]. inversion Hx as [|? ? Hx' _]; subst.
    apply validName_spec in Hx' as [Hx1 Hx2].
    rewrite joinPath_snoc. destruct pre; [now apply lastIsSlash_noslash|].
    rewrite lastIsSlash_app by discriminate.
    change ("/" ++ x) with (String "/" x).
    destruct x as [|c x]; [congruence|]. cbn [lastIsSlash].
    change (lastIsSlash (String c x) = false). now apply lastIsSlash_noslash. }
  unfold normalize. destruct (String.eqb_spec (joinPath l) "") as [|_]; [contradiction|].
  rewrite Habs, Hlast. simpl negb.
  rewrite splitOn_joinPath by (exact Hne || now apply valid_noslash).
  rewrite normSegs_plain by exact Hv. simpl.
  destruct (String.eqb_spec (String.concat "/" l) "") as [E|_]; [contradiction|].
  reflexivity.
Qed.

Lemma pathJoin_valid segs x :
  Forall (fun s => validName s = true) segs -> validName x = true ->
  pathJoin [joinPath segs; x] = joinPath (segs ++ [x])%list.
Proof.
  intros Hv Hx. pose proof (validName_spec _ Hx) as [Hx1 _].
  assert (Hall : Forall (fun s => validName s = true) (segs ++ [x])%list)
    by (apply Forall_app; split; [exact Hv|constructor; [exact Hx|constructor]]).
  unfold pathJoin. destruct segs as [|y ys].
  - cbn [filter joinPath String.concat]. simpl negb at 1.
    destruct (String.eqb_spec x "") as [|_]; [contradiction|]. simpl.
    apply (normalize_valid [x]); [discriminate|exact Hall].
  - assert (Hj : joinPath (y :: ys) <> "").
    { inversion Hv as [|? ? Hy _]; subst. apply validName_spec in Hy as [Hy _].
      destruct ys; [exact Hy|]. rewrite joinPath_cons2. destruct y; [congruence|discriminate]. }
    cbn [filter]. destruct (String.eqb_spec (joinPath (y :: ys)) "") as [|_]; [contradiction|].
    destruct (String.eqb_spec x "") as [|_]; [contradiction|]. simpl negb.
    cbv iota.
    change (String.concat "/" [joinPath (y :: ys); x]) with (joinPath (y :: ys) ++ "/" ++ x).
    rewrite <- (joinPath_snoc (y :: ys) x).
    apply normalize_valid; [destruct ys; discriminate|exact Hall].
Qed.

(** [getAllPaths] is closed under parents: every proper prefix of a
    listed path is listed too, and in a well-formed tree it is a directory. *)
Theorem getAllPaths_prefix_closed (root : entries) (p : list string) (k : nat) :
  In p (getAllPaths root) -> (0 < k < List.length p)%nat ->
  In (firstn k p) (getAllPaths root) /\
  (wfEntries root = true -> isDirectoryPath root (firstn k p) = true).
Proof.
  intros Hin Hk. unfold getAllPaths in *.
  apply walk_spec in Hin as (q & Eq & Hq). simpl in Eq; subst q.
  assert (Hd : exists sub, reach root (firstn k p) (Dir sub)).
  { unfold Item in Hq.
    destruct Hq as [(sub & Hr) | (pre & item & raw & mt & Hr & Hp & ->)].
    - exact (reach_prefix _ _ _ Hr k Hk).
    - rewrite length_app in Hk. simpl in Hk.
      rewrite firstn_app.
      replace (k - List.length pre)%nat with O by lia. rewrite app_nil_r.
      destruct (reach_prefix _ _ _ Hr k) as (sub & Hs);
        [rewrite length_app; simpl; lia|].
      rewrite firstn_app in Hs.
      replace (k - List.length pre)%nat with O in Hs by lia.
      rewrite app_nil_r in Hs. eauto. }
  destruct Hd as (sub & Hs). split.
  - apply walk_spec. exists (firstn k p). split; [reflexivity|]. left; eauto.
  - intros Hwf. unfold isDirectoryPath. now rewrite (reach_resolve _ _ _ Hwf Hs).
Qed.

Lemma resolve_valid segs : forall es n,
  wfEntries es = true -> resolve (Dir es) segs = Some n ->
  Forall (fun s => validName s = true) segs.
Proof.
  induction segs as [|s segs IH]; intros es n Hwf H; [constructor|].
  simpl in H. destruct (lookup es s) as [m|] eqn:E; [|discriminate].
  constructor.
  - exact (names_valid _ Hwf s (inEntries_names _ _ _ (lookup_inEntries _ _ _ E))).
  - destruct m as [sub|raw mt].
    + apply (IH sub n); [|exact H].
      apply (resolve_wf es [s]); [exact Hwf|simpl; now rewrite E].
    + destruct segs; [constructor|discriminate].
Qed.

Section WithRuntime.

Variable matter : string -> option (FrontMatter * string).
Variable toTime : string -> option Z.
Variable isoDay : Z -> string.
Variable now : Z.
Variable outside : list string -> option node.

Lemma readPostFileAs_some base cp raw :
  readPostFileAs matter toTime isoDay base cp raw <> Some None.
Proof.
  unfold readPostFileAs. destruct (matter raw) as [[data body]|]; simpl; [|discriminate].
  destruct (truthy (fm_date data)) as [v|]; simpl; [|discriminate].
  unfold isoOfDateValue. destruct (toTime v); simpl; discriminate.
Qed.

Lemma readPostFile_some segs raw :
  readPostFile matter toTime isoDay segs raw <> Some None.
Proof. apply readPostFileAs_some. Qed.

Lemma readPost_found root p :
  isPost root p = true -> readPost matter toTime isoDay root p <> Some None.
Proof.
  unfold readPost, isPost, existsSync. cbv zeta. intros H.
  destruct (resolve (Dir root) (withExt p ".mdx")) as [[es|raw mt]|] eqn:E1; simpl; rewrite ?E1.
  - discriminate.
  - apply readPostFile_some.
  - simpl in H.
    destruct (resolve (Dir root) (withExt p ".md")) as [[es|raw mt]|] eqn:E2;
      simpl; rewrite ?E2; [discriminate|apply readPostFile_some|discriminate].
Qed.

(** *** The route's string paths on segments that name entries *)

Lemma nodeAt_valid root l :
  Forall (fun s => validName s = true) l ->
  nodeAt outside root (joinPath l) = resolve (Dir root) l.
Proof.
  intros Hv. unfold nodeAt. rewrite contentSegs_valid by exact Hv.
  destruct l as [|w l]; [reflexivity|]. inversion Hv as [|? ? Hw _]; subst.
  destruct (validName_full _ Hw) as (_ & _ & Hw3 & _). now rewrite Hw3.
Qed.

Lemma nodeAt_mdx root l :
  Forall (fun s => validName s = true) l ->
  nodeAt outside root (joinPath l ++ ".mdx") = resolve (Dir root) (withExt l ".mdx").
Proof.
  intros Hv. rewrite <- joinPath_withExt. apply nodeAt_valid.
  apply Forall_withExt; [exact Hv|reflexivity|simpl; lia].
Qed.

Lemma nodeAt_md root l :
  Forall (fun s => validName s = true) l ->
  nodeAt outside root (joinPath l ++ ".md") = resolve (Dir root) (withExt l ".md").
Proof.
  intros Hv. rewrite <- joinPath_withExt. apply nodeAt_valid.
  apply Forall_withExt; [exact Hv|reflexivity|simpl; lia].
Qed.

Lemma isDirectoryAt_valid root l :
  Forall (fun s => validName s = true) l ->
  isDirectoryAt outside root (joinPath l) = isDirectoryPath root l.
Proof. intros Hv. unfold isDirectoryAt, isDirectoryPath. now rewrite nodeAt_valid. Qed.

Lemma isPostAt_valid root l :
  Forall (fun s => validName s = true) l ->
  isPostAt outside root (joinPath l) = isPost root l.
Proof.
  intros Hv. unfold isPostAt, isPost, existsAt, existsSync.
  now rewrite nodeAt_mdx, nodeAt_md.
Qed.

Lemma readDirectoryAt_valid root l :
  Forall (fun s => validName s = true) l ->
  readDirectoryAt matter toTime isoDay now outside root (joinPath l) =
  readDirectory matter toTime isoDay now root l.
Proof.
  intros Hv. unfold readDirectoryAt, readDirectory. now rewrite nodeAt_valid.
Qed.

Lemma readPostAt_valid root l :
  Forall (fun s => validName s = true) l ->
  readPostAt matter toTime isoDay outside root (joinPath l) =
  readPost matter toTime isoDay root l.
Proof.
  intros Hv. unfold readPostAt, readPost, existsAt, existsSync, readPostFile. cbv zeta.
  rewrite basenameStr_valid by exact Hv.
  rewrite nodeAt_mdx, nodeAt_md by exact Hv.
  destruct (resolve (Dir root) (withExt l ".mdx")) as [n1|] eqn:E1; cbv beta iota.
  - rewrite nodeAt_mdx, E1 by exact Hv. reflexivity.
  - destruct (resolve (Dir root) (withExt l ".md")) as [n2|] eqn:E2; cbv beta iota;
      [|reflexivity].
    rewrite nodeAt_md, E2 by exact Hv. reflexivity.
Qed.

Lemma CatchAllPage_valid root p :
  Forall (fun s => validName s = true) p ->
  CatchAllPage matter toTime isoDay now outside root p =
  if isDirectoryPath root p then
    let* entries := readDirectory matter toTime isoDay now root p in
    ret (ListingPage ("/" ++ joinPath p ++ "/") entries)
  else if isPost root p then
    let* post := readPost matter toTime isoDay root p in
    match post with
    | None => ret NotFound
    | Some q => ret (PostPage q (postParentPath p))
    end
  else ret NotFound.
Proof.
  intros Hv. unfold CatchAllPage. cbv zeta.
  rewrite isDirectoryAt_valid, isPostAt_valid, readDirectoryAt_valid, readPostAt_valid
    by exact Hv.
  reflexivity.
Qed.

Lemma CatchAllPage_found root p :
  Forall (fun s => validName s = true) p ->
  isDirectoryPath root p = true \/ isPost root p = true ->
  CatchAllPage matter toTime isoDay now outside root p <> Some NotFound.
Proof.
  intros Hv H. rewrite CatchAllPage_valid by exact Hv.
  destruct (isDirectoryPath root p) eqn:Ed.
  - destruct (readDirectory matter toTime isoDay now root p); simpl; discriminate.
  - destruct H as [H|H]; [discriminate|]. rewrite H.
    pose proof (readPost_found root p H) as Hf.
    destruct (readPost matter toTime isoDay root p) as [[post|]|]; simpl;
      [discriminate|contradiction|discriminate].
Qed.

Lemma CatchAllPage_listing root p path es :
  CatchAllPage matter toTime isoDay now outside root p = Some (ListingPage path es) ->
  path = "/" ++ joinPath p ++ "/".
Proof.
  unfold CatchAllPage. cbv zeta. destruct (isDirectoryAt outside root (joinPath p)).
  - destruct (readDirectoryAt matter toTime isoDay now outside root (joinPath p));
      simpl; [|discriminate].
    intros H; injection H as <-; reflexivity.
  - destruct (isPostAt outside root (joinPath p)); [|discriminate].
    destruct (readPostAt matter toTime isoDay outside root (joinPath p)) as [[post|]|];
      simpl; discriminate.
Qed.

Lemma listEntries_href cp es l e :
  listEntries matter toTime isoDay now cp es = Some l -> In e l ->
  (isDirectory e = true /\
   exists item sub, inEntries item (Dir sub) es /\ name e = item ++ "/" /\
     href e = "/" ++ pathJoin [cp; item]) \/
  (isDirectory e = false /\ isPostName (name e) = true /\
   (exists raw mt, inEntries (name e) (File raw mt) es) /\
   href e = "/" ++ pathJoin [cp; slugOf (name e)]).
Proof.
  revert l; induction es as [|item n rest IH]; intros l Hl Hin; simpl in Hl.
  - injection Hl as <-. destruct Hin.
  - assert (Hup : (isDirectory e = true /\
       exists item0 sub, inEntries item0 (Dir sub) rest /\ name e = item0 ++ "/" /\
         href e = "/" ++ pathJoin [cp; item0]) \/
      (isDirectory e = false /\ isPostName (name e) = true /\
       (exists raw mt, inEntries (name e) (File raw mt) rest) /\
       href e = "/" ++ pathJoin [cp; slugOf (name e)]) ->
      (isDirectory e = true /\
       exists item0 sub, inEntries item0 (Dir sub) (ECons item n rest) /\
         name e = item0 ++ "/" /\ href e = "/" ++ pathJoin [cp; item0]) \/
      (isDirectory e = false /\ isPostName (name e) = true /\
       (exists raw mt, inEntries (name e) (File raw mt) (ECons item n rest)) /\
       href e = "/" ++ pathJoin [cp; slugOf (name e)])).
    { intros [(H1 & it & sb & H2 & H3 & H4) | (H1 & H2 & (raw & mt & H3) & H4)].
      - left. split; [exact H1|]. exists it, sb. simpl. auto.
      - right. repeat split; auto. exists raw, mt. simpl. auto. }
    destruct n as [sub | raw mt].
    + inv_bind Hl d Hd Hl. inv_bind Hl desc Hdesc Hl. inv_bind Hl ents Htl Hl.
      injection Hl as <-. destruct Hin as [<- | Hin].
      * left. split; [reflexivity|]. exists item, sub. simpl. auto.
      * apply Hup, (IH _ Htl Hin).
    + destruct (isPostName item) eqn:Ep.
      * inv_bind Hl db Hdb Hl. destruct db as [data body].
        inv_bind Hl d Hd Hl. inv_bind Hl ents Htl Hl. injection Hl as <-.
        destruct Hin as [<- | Hin].
        -- right. simpl. repeat split; auto. exists raw, mt. simpl. auto.
        -- apply Hup, (IH _ Htl Hin).
      * apply Hup, (IH _ Hl Hin).
Qed.

Lemma listEntries_names segs es l :
  wfEntries es = true ->
  listEntries matter toTime isoDay now segs es = Some l ->
  NoDup (map name l) /\
  forall e, In e l ->
    (exists it, In it (names es) /\ name e = it ++ "/") \/ In (name e) (names es).
Proof.
  revert l; induction es as [|item n rest IH]; intros l Hwf Hl; simpl in Hl.
  - injection Hl as <-. split; [constructor|intros e []].
  - pose proof (names_valid _ Hwf) as Hvalid.
    apply wfEntries_cons in Hwf as (Hv & Hnd & _ & Hr).
    apply validName_spec in Hv as [_ Hslash].
    assert (Hrest : forall tl, listEntries matter toTime isoDay now segs rest = Some tl ->
      forall e0, In e0 tl ->
        (exists it, In it (names (ECons item n rest)) /\ name e0 = it ++ "/") \/
        In (name e0) (names (ECons item n rest))).
    { intros tl Htl e0 He0.
      destruct (proj2 (IH tl Hr Htl) e0 He0) as [(it & Hit & Hn)|Hn].
      - left. exists it. simpl. auto.
      - right. simpl. auto. }
    assert (Hother : forall tl nm, listEntries matter toTime isoDay now segs rest = Some tl ->
      (nm = item ++ "/" \/ nm = item) -> ~ In nm (map name tl)).
    { intros tl nm Htl Hnm Hin. apply in_map_iff in Hin as (e0 & He0 & Hin).
      destruct (proj2 (IH tl Hr Htl) e0 Hin) as [(it & Hit & Hn)|Hn];
        rewrite He0 in Hn.
      - assert (Hvit := validName_spec _ (Hvalid it (or_intror Hit))).
        destruct Hnm as [->| ->].
        + apply str_app_inv_r in Hn. subst. contradiction.
        + rewrite Hn, hasSlash_app in Hslash. simpl in Hslash.
          apply orb_false_iff in Hslash as [_ H]. discriminate.
      - assert (Hvit := validName_spec _ (Hvalid nm (or_intror Hn))).
        destruct Hnm as [->| ->]; [|contradiction].
        destruct Hvit as [_ Hs]. rewrite hasSlash_app, orb_comm in Hs.
        discriminate. }
    destruct n as [sub | raw mt].
    + inv_bind Hl d Hd Hl. inv_bind Hl desc Hdesc Hl. inv_bind Hl ents Htl Hl.
      injection Hl as <-. split.
      * simpl. constructor; [apply (Hother ents); auto|apply (IH _ Hr Htl)].
      * intros e [<- | Hin]; [left; exists item; simpl; auto|exact (Hrest _ Htl e Hin)].
    + destruct (isPostName item) eqn:Ep.
      * inv_bind Hl db Hdb Hl. destruct db as [data body].
        inv_bind Hl d Hd Hl. inv_bind Hl ents Htl Hl. injection Hl as <-. split.
        -- simpl. constructor; [apply (Hother ents); auto|apply (IH _ Hr Htl)].
        -- intros e [<- | Hin]; [right; simpl; auto|exact (Hrest _ Htl e Hin)].
      * split; [apply (IH _ Hr Hl)|exact (Hrest _ Hl)].
Qed.

Lemma extname_post_cases item :
  isPostName item = true ->
  ((item = ".md" \/ item = ".mdx") /\ extname item = "") \/
  extname item = ".mdx" \/ extname item = ".md".
Proof.
  unfold isPostName. intros H.
  destruct (endsWith item ".mdx") eqn:E1.
  - destruct (endsWith_app _ _ E1) as [p ->].
    destruct (String.string_dec p "") as [->|Hp]; [left; split; [right|]; reflexivity|].
    right; left. apply extname_suffix; [exact Hp|simpl; lia|reflexivity].
  - simpl in H. destruct (endsWith_app _ _ H) as [p ->].
    destruct (String.string_dec p "") as [->|Hp]; [left; split; [left|]; reflexivity|].
    right; right. apply extname_suffix; [exact Hp|simpl; lia|reflexivity].
Qed.

(** The type column of a listing: "[DIR]" for a directory, "[TXT]" for a
    post file, and "[ ]" for a post file named exactly ".md" or ".mdx"
    (whose [path.extname] is empty). *)
Theorem listing_typeIndicator (root : entries) (segs : list string)
    (l : list DirectoryEntry) (e : DirectoryEntry) :
  readDirectory matter toTime isoDay now root segs = Some l -> In e l ->
  (isDirectory e = true /\ getTypeIndicator e = IText "[DIR]") \/
  (isDirectory e = false /\ getTypeIndicator e = IText "[TXT]" /\
   name e <> ".md" /\ name e <> ".mdx") \/
  (isDirectory e = false /\ getTypeIndicator e = IText "[ ]" /\
   (name e = ".md" \/ name e = ".mdx")).
Proof.
  unfold readDirectory. intros Hl Hin.
  destruct (resolve (Dir root) segs) as [[es|raw mt]|];
    [| injection Hl as <-; destruct Hin | injection Hl as <-; destruct Hin].
  destruct (listEntries_shape _ _ _ _ _ _ _ _ Hl Hin) as
    [(H1 & _) | (H1 & H2 & H3 & _)].
  - left. split; [exact H1|]. unfold getTypeIndicator. now rewrite H1.
  - right. unfold getTypeIndicator. rewrite H1, H2.
    destruct (extname_post_cases _ H3) as [([E|E] & X) | [X | X]];
      rewrite X.
    + right. repeat split; auto.
    + right. repeat split; auto.
    + left. repeat split; intros E; rewrite E in X; discriminate.
    + left. repeat split; intros E; rewrite E in X; discriminate.
Qed.


(** Every link of a listing, unless it is the link of a post file whose
    slug is not an entry name (a file named ".md", "..md", ...), goes to a
    page that [generateStaticParams] lists and that the catch-all route
    renders without [notFound()]. *)
Theorem listing_links_found (root : entries) (segs : list string)
    (l : list DirectoryEntry) (e : DirectoryEntry) :
  wfEntries root = true ->
  readDirectory matter toTime isoDay now root segs = Some l -> In e l ->
  (isDirectory e = false -> validName (slugOf (name e)) = true) ->
  exists q, href e = "/" ++ joinPath q /\ In q (generateStaticParams root) /\
            CatchAllPage matter toTime isoDay now outside root q <> Some NotFound.
Proof.
  unfold readDirectory. intros Hwf Hl Hin Hslug.
  destruct (resolve (Dir root) segs) as [[es|raw mt]|] eqn:Er;
    [| injection Hl as <-; destruct Hin | injection Hl as <-; destruct Hin].
  pose proof (resolve_wf _ _ _ Hwf Er) as Hwfes.
  pose proof (resolve_valid _ _ _ Hwf Er) as Hvs.
  unfold generateStaticParams, getAllPaths.
  destruct (listEntries_href _ _ _ _ Hl Hin) as
    [(H1 & item & sub & Hie & _ & Hh) | (H1 & Hp & (raw & mt & Hie) & Hh)].
  - assert (Hvi : validName item = true)
      by exact (names_valid _ Hwfes item (inEntries_names _ _ _ Hie)).
    rewrite pathJoin_valid in Hh by assumption.
    exists (segs ++ [item])%list. split; [exact Hh|].
    assert (Hres : resolve (Dir root) (segs ++ [item])%list = Some (Dir sub))
      by (rewrite (resolve_child _ _ _ _ Er); exact (inEntries_lookup _ _ _ Hwfes Hie)).
    split.
    + apply walk_spec. exists (segs ++ [item])%list. split; [reflexivity|].
      left. exists sub. apply resolve_reach; [|exact Hres].
      destruct segs; discriminate.
    + apply CatchAllPage_found.
      * apply Forall_app. split; [exact Hvs|constructor; [exact Hvi|constructor]].
      * left. unfold isDirectoryPath. now rewrite Hres.
  - pose proof (Hslug H1) as Hvi.
    rewrite pathJoin_valid in Hh by assumption.
    exists (segs ++ [slugOf (name e)])%list. split; [exact Hh|].
    assert (Hres : resolve (Dir root) (segs ++ [name e])%list = Some (File raw mt))
      by (rewrite (resolve_child _ _ _ _ Er); exact (inEntries_lookup _ _ _ Hwfes Hie)).
    split.
    + apply walk_spec. exists (segs ++ [slugOf (name e)])%list. split; [reflexivity|].
      right. exists segs, (name e), raw, mt. repeat split; [|exact Hp].
      apply resolve_reach; [|exact Hres]. destruct segs; discriminate.
    + apply CatchAllPage_found.
      * apply Forall_app. split; [exact Hvs|constructor; [exact Hvi|constructor]].
      * right. eapply post_item_isPost; [exact Hres|exact Hp].
Qed.

(** The link of a listed post file "x.md" or "x.mdx" (x an entry name) is
    "/" followed by the directory's segments and x. The catch-all route
    shows there the listing of the directory "x" when one sits next to the
    file; otherwise the post built from the file, except that for "x.md"
    with an entry "x.mdx" beside it, the post is read from "x.mdx" (and the
    page throws when "x.mdx" is a directory). *)
Theorem listing_post_link (root : entries) (segs : list string)
    (l : list DirectoryEntry) (e : DirectoryEntry) :
  wfEntries root = true ->
  readDirectory matter toTime isoDay now root segs = Some l -> In e l ->
  isDirectory e = false -> validName (slugOf (name e)) = true ->
  exists es raw mtime,
    resolve (Dir root) segs = Some (Dir es) /\
    lookup es (name e) = Some (File raw mtime) /\
    href e = "/" ++ joinPath (segs ++ [slugOf (name e)])%list /\
    (forall sub, lookup es (slugOf (name e)) = Some (Dir sub) ->
     CatchAllPage matter toTime isoDay now outside root (segs ++ [slugOf (name e)])%list =
     let* ents := readDirectory matter toTime isoDay now root (segs ++ [slugOf (name e)])%list in
     ret (ListingPage ("/" ++ joinPath (segs ++ [slugOf (name e)])%list ++ "/") ents)) /\
    ((forall sub, lookup es (slugOf (name e)) <> Some (Dir sub)) ->
     endsWith (name e) ".mdx" = true \/ lookup es (slugOf (name e) ++ ".mdx") = None ->
     CatchAllPage matter toTime isoDay now outside root (segs ++ [slugOf (name e)])%list =
     let* post := readPostFile matter toTime isoDay (segs ++ [slugOf (name e)])%list raw in
     match post with
     | None => ret NotFound
     | Some p => ret (PostPage p (postParentPath (segs ++ [slugOf (name e)])%list))
     end) /\
    (forall raw' mtime',
     (forall sub, lookup es (slugOf (name e)) <> Some (Dir sub)) ->
     lookup es (slugOf (name e) ++ ".mdx") = Some (File raw' mtime') ->
     CatchAllPage matter toTime isoDay now outside root (segs ++ [slugOf (name e)])%list =
     let* post := readPostFile matter toTime isoDay (segs ++ [slugOf (name e)])%list raw' in
     match post with
     | None => ret NotFound
     | Some p => ret (PostPage p (postParentPath (segs ++ [slugOf (name e)])%list))
     end) /\
    (forall sub',
     (forall sub, lookup es (slugOf (name e)) <> Some (Dir sub)) ->
     lookup es (slugOf (name e) ++ ".mdx") = Some (Dir sub') ->
     CatchAllPage matter toTime isoDay now outside root (segs ++ [slugOf (name e)])%list = None).
Proof.
  unfold readDirectory. intros Hwf Hl Hin Hd Hvi.
  destruct (resolve (Dir root) segs) as [[es|raw mt]|] eqn:Er;
    [| injection Hl as <-; destruct Hin | injection Hl as <-; destruct Hin].
  pose proof (resolve_wf _ _ _ Hwf Er) as Hwfes.
  pose proof (resolve_valid _ _ _ Hwf Er) as Hvs.
  destruct (listEntries_href _ _ _ _ Hl Hin) as
    [(H1 & _) | (_ & Hp & (raw & mt & Hie) & Hh)]; [congruence|].
  rewrite pathJoin_valid in Hh by assumption.
  pose proof (inEntries_lookup _ _ _ Hwfes Hie) as Hlk.
  assert (Hvq : Forall (fun s => validName s = true) (segs ++ [slugOf (name e)])%list)
    by (apply Forall_app; split; [exact Hvs|constructor; [exact Hvi|constructor]]).
  assert (Hrc : forall x, resolve (Dir root) (segs ++ [x])%list = lookup es x)
    by (intros x; exact (resolve_child _ _ _ x Er)).
  pose proof (CatchAllPage_valid root _ Hvq) as Hcp.
  unfold isDirectoryPath, isPost, readPost, existsSync in Hcp. cbv zeta in Hcp.
  rewrite !withExt_snoc, !Hrc in Hcp.
  exists es, raw, mt. split; [reflexivity|]. split; [exact Hlk|]. split; [exact Hh|].
  split; [|split; [|split]].
  - intros sub Hs. rewrite Hcp, Hs. reflexivity.
  - intros Hnd Hcase. rewrite Hcp.
    destruct (lookup es (slugOf (name e))) as [[sub|r m]|] eqn:Es;
      [exfalso; exact (Hnd sub eq_refl)| |]; cbv beta iota;
    (destruct Hcase as [E | E];
     [rewrite (slugOf_mdx _ E), Hlk; cbv beta iota; rewrite Hrc, Hlk; reflexivity|];
     unfold isPostName in Hp; destruct (endsWith (name e) ".mdx") eqn:E1;
     [rewrite (slugOf_mdx _ E1) in E; congruence|];
     simpl in Hp; rewrite E, (slugOf_md _ E1 Hp), Hlk; cbv beta iota;
     rewrite Hrc, Hlk; reflexivity).
  - intros raw' mt' Hnd E. rewrite Hcp.
    destruct (lookup es (slugOf (name e))) as [[sub|r m]|] eqn:Es;
      [exfalso; exact (Hnd sub eq_refl)| |]; cbv beta iota;
      rewrite E; cbv beta iota; rewrite Hrc, E; reflexivity.
  - intros sub' Hnd E. rewrite Hcp.
    destruct (lookup es (slugOf (name e))) as [[sub|r m]|] eqn:Es;
      [exfalso; exact (Hnd sub eq_refl)| |]; cbv beta iota;
      rewrite E; cbv beta iota; rewrite Hrc, E; reflexivity.
Qed.

(** React keys: with the names of every directory distinct, the entries of
    a listing have distinct names. *)
Theorem readDirectory_names_distinct (root : entries) (segs : list string)
    (l : list DirectoryEntry) :
  wfEntries root = true ->
  readDirectory matter toTime isoDay now root segs = Some l ->
  NoDup (map name l).
Proof.
  unfold readDirectory. intros Hwf Hl.
  destruct (resolve (Dir root) segs) as [[es|raw mt]|] eqn:Er;
    [| injection Hl as <-; constructor | injection Hl as <-; constructor].
  exact (proj1 (listEntries_names _ _ _ (resolve_wf _ _ _ Hwf Er) Hl)).
Qed.

(** The "Parent Directory" link of a listing page at [p] goes to "/"
    followed by all but the last segment of [p]: the parent path the route
    gives a post at [p]. *)
Theorem listing_parentHref (root : entries) (p : list string) (path : string)
    (es : list DirectoryEntry) :
  Forall (fun s => validName s = true) p ->
  CatchAllPage matter toTime isoDay now outside root p = Some (ListingPage path es) ->
  parentHref path = Some (postParentPath p) /\
  postParentPath p = "/" ++ joinPath (removelast p).
Proof.
  intros Hv H. apply CatchAllPage_listing in H as ->.
  assert (Hpp : postParentPath p = "/" ++ joinPath (removelast p)).
  { unfold postParentPath.
    destruct (removelast p) as [|x xs]; reflexivity. }
  split; [|exact Hpp]. rewrite Hpp. unfold parentHref.
  destruct (String.eqb_spec ("/" ++ joinPath p ++ "/") "/") as [E|_];
    [exfalso; exact (listing_path_ne p E)|].
  rewrite pathSegments_listing by exact Hv. reflexivity.
Qed.

(** The breadcrumb of a listing page at [p] has one link per segment: the
    i-th is labelled with the i-th segment, links to the first i+1 segments
    and is followed by "/". *)
Theorem listing_breadcrumb (root : entries) (p : list string) (path : string)
    (es : list DirectoryEntry) :
  Forall (fun s => validName s = true) p ->
  CatchAllPage matter toTime isoDay now outside root p = Some (ListingPage path es) ->
  breadcrumb path =
  mapi_from (fun i s => mkCrumb ("/" ++ joinPath (firstn (S i) p)) s "/") 0 p.
Proof.
  intros Hv H. apply CatchAllPage_listing in H as ->.
  unfold breadcrumb. rewrite pathSegments_listing by exact Hv.
  apply mapi_from_ext. intros j x.
  change ("/" ++ joinPath p ++ "/") with ("/" ++ (joinPath p ++ "/")).
  rewrite <- FormatFacts.append_assoc_str, endsWith_slash.
  rewrite andb_false_r. reflexivity.
Qed.

End WithRuntime.

End PageFacts.

Module Examples.
Import Listing Format Content Route Samples.
Local Open Scope string_scope.

(** C4: stability applied to the sample listing sorted by size, descending. *)
Lemma sortEntries_stable_witness :
  consistent lengthCompare /\
  filter (fun e => compareEntries lengthCompare ColSize Desc (sampleEntry "a.mdx" false 10) e =? 0)%Z
         (sortEntries lengthCompare sampleEntries ColSize Desc) =
  filter (fun e => compareEntries lengthCompare ColSize Desc (sampleEntry "a.mdx" false 10) e =? 0)%Z
         sampleEntries.
Proof.
  assert (H : consistent lengthCompare).
  { unfold lengthCompare. split.
    - intros a b. rewrite <- Z.sgn_opp. f_equal. lia.
    - intros a b c. lia. }
  split; [exact H|].
  apply (ListingFacts.sortEntries_stable lengthCompare H).
Defined.

(** C5: the theorem at 1536 bytes (1.5 KiB). *)
Lemma formatSize_spec_witness :
  0 <= 1536 /\
  exists n, n * 2048 - 1024 <= 20 * 1536 < n * 2048 + 1024 /\
    formatSize 1536 = toDecimal (n / 10) ++ "." ++ toDecimal (n mod 10) ++ "K".
Proof.
  split; [lia|].
  destruct (FormatFacts.formatSize_spec 1536 ltac:(lia)) as (_ & _ & HK & _).
  apply HK. lia.
Defined.

(** C6: a missing path lists nothing. *)
Lemma readDirectory_not_directory_witness :
  resolve (Dir sampleRoot) ["missing"] = None /\
  readDirectory sampleMatter sampleToTime sampleIsoDay sampleNow sampleRoot ["missing"] = Some [].
Proof.
  split; [reflexivity|].
  apply ContentFacts.readDirectory_not_directory. left. reflexivity.
Defined.

(** C7: the theorem on the sample listing's second entry. *)
Lemma readDirectory_entry_kind_witness :
  readDirectory sampleMatter sampleToTime sampleIsoDay sampleNow sampleRoot [] = Some sampleListing /\
  In (nth 1 sampleListing dummyEntry) sampleListing /\
  extension (nth 1 sampleListing dummyEntry) = extname (name (nth 1 sampleListing dummyEntry)).
Proof.
  assert (H1 : readDirectory sampleMatter sampleToTime sampleIsoDay sampleNow sampleRoot []
               = Some sampleListing) by (vm_compute; reflexivity).
  assert (H2 : In (nth 1 sampleListing dummyEntry) sampleListing)
    by (apply nth_In; vm_compute; lia).
  split; [exact H1|split; [exact H2|]].
  destruct (ContentFacts.readDirectory_entry_kind sampleMatter sampleToTime sampleIsoDay
              sampleNow sampleRoot [] _ _ H1 H2) as [[Hd _] | [_ [Hx _]]].
  - vm_compute in Hd. discriminate.
  - exact Hx.
Defined.

(** C7: a file named ".md" is listed as a post whose extension is empty. *)
Lemma readDirectory_entry_kind_counterexample :
  exists e,
    readDirectory sampleMatter sampleToTime sampleIsoDay sampleNow
      (ECons ".md" (File "draft" sampleMtime) ENil) [] = Some [e] /\
    isDirectory e = false /\ extension e = "".
Proof. eexists. split; [vm_compute; reflexivity|split; reflexivity]. Qed.

(** C3: a written date that is not a date makes [readPost] throw (no
    PostData is returned), and a title written as the empty string is
    replaced by the final path segment. *)
Lemma readPost_fields_counterexample :
  readPost sampleMatter sampleToTime sampleIsoDay
    (ECons "later.mdx" (File badDateText sampleMtime) ENil) ["later"] = None /\
  (exists body, sampleMatter emptyTitleText
                = Some (mkFrontMatter (Some "") None (Some "2026-02-23"), body)) /\
  exists p, readPost sampleMatter sampleToTime sampleIsoDay
              (ECons "hello.mdx" (File emptyTitleText sampleMtime) ENil) ["hello"]
            = Some (Some p) /\ title p = "hello".
Proof.
  split; [vm_compute; reflexivity|].
  split; eexists; [vm_compute; reflexivity|].
  split; [vm_compute; reflexivity|reflexivity].
Qed.

(** C3: the theorem on "hello.mdx" of the sample tree. *)
Lemma readPost_fields_witness :
  resolve (Dir sampleRoot) (withExt ["hello"] ".mdx") =
    Some (File (postText ["title: Hello"; "description: First post";
                          "date: 2026-02-23"] "Hi") sampleMtime) /\
  exists p, readPost sampleMatter sampleToTime sampleIsoDay sampleRoot ["hello"] = Some (Some p) /\
            title p = "Hello" /\ post_date p = "2026-02-23".
Proof.
  assert (Hr : resolve (Dir sampleRoot) (withExt ["hello"] ".mdx") =
    Some (File (postText ["title: Hello"; "description: First post";
                          "date: 2026-02-23"] "Hi") sampleMtime)) by reflexivity.
  split; [exact Hr|].
  destruct (ContentFacts.readPost_fields sampleMatter sampleToTime sampleIsoDay sampleRoot ["hello"]
              _ _ (mkFrontMatter (Some "Hello") (Some "First post") (Some "2026-02-23")) "Hi"
              (or_introl Hr) ltac:(vm_compute; reflexivity)) as [_ Hok].
  destruct Hok as (p & Hp & Ht & _ & _ & _ & Hd & _).
  - intros v E. vm_compute in E. injection E as <-. vm_compute. discriminate.
  - exists p. split; [exact Hp|]. split.
    + apply Ht; [reflexivity|discriminate].
    + apply Hd; [reflexivity|right; vm_compute; reflexivity].
Defined.

(** C9: the theorem on the [archives/] entry of the sample listing. *)
Lemma subdirectory_date_witness :
  readDirectory sampleMatter sampleToTime sampleIsoDay sampleNow sampleRoot [] = Some sampleListing /\
  In (nth 0 sampleListing dummyEntry) sampleListing /\
  isDirectory (nth 0 sampleListing dummyEntry) = true /\
  exists es item sub,
    resolve (Dir sampleRoot) [] = Some (Dir es) /\ inEntries item (Dir sub) es /\
    name (nth 0 sampleListing dummyEntry) = item ++ "/".
Proof.
  assert (H1 : readDirectory sampleMatter sampleToTime sampleIsoDay sampleNow sampleRoot []
               = Some sampleListing) by (vm_compute; reflexivity).
  assert (H2 : In (nth 0 sampleListing dummyEntry) sampleListing)
    by (apply nth_In; vm_compute; lia).
  assert (H3 : isDirectory (nth 0 sampleListing dummyEntry) = true) by (vm_compute; reflexivity).
  split; [exact H1|split; [exact H2|split; [exact H3|]]].
  destruct (ContentFacts.subdirectory_date sampleMatter sampleToTime sampleIsoDay sampleNow
              sampleRoot [] _ _ H1 H2 H3) as (es & item & sub & Hr & Hi & Hn & _).
  exists es, item, sub. auto.
Defined.

(** C9: the subdirectory [history/] has one post, dated 1969-07-20, which
    [readPost] loads with that date; the listing of the parent gives the
    [history/] entry the current day (2026-10-14) instead. *)
Theorem getDirectoryDate_pre_epoch :
  (exists p, readPost sampleMatter sampleToTime sampleIsoDay oldPostRoot ["history"; "landing"]
             = Some (Some p) /\ post_date p = "1969-07-20") /\
  exists e, readDirectory sampleMatter sampleToTime sampleIsoDay sampleNow oldPostRoot []
            = Some [e] /\ name e = "history/" /\ isDirectory e = true /\
            date e = "2026-10-14".
Proof.
  split; eexists; (split; [vm_compute; reflexivity|]);
    [reflexivity|split; [reflexivity|split; reflexivity]].
Qed.

(** C2: a directory "a" and a post "a.mdx" side by side give the path
    ["a"] twice. *)
Lemma getAllPaths_items_counterexample :
  getAllPaths stemRoot = [["a"]; ["a"]] /\ ~ NoDup (getAllPaths stemRoot).
Proof.
  split; [vm_compute; reflexivity|].
  vm_compute. intros H. inversion H as [|x l Hx _]. apply Hx. left. reflexivity.
Qed.

(** C8: the subdirectory [notes/] has an index post, [notes/index.md],
    which [readPost] loads with description "Notes"; the listing of the
    parent gives the [notes/] entry the description "". *)
Theorem getDirectoryDescription_index_md :
  (exists p, readPost sampleMatter sampleToTime sampleIsoDay indexMdRoot ["notes"; "index"]
             = Some (Some p) /\ post_description p = "Notes") /\
  exists e, readDirectory sampleMatter sampleToTime sampleIsoDay sampleNow indexMdRoot []
            = Some [e] /\ name e = "notes/" /\ description e = "".
Proof.
  split; eexists; (split; [vm_compute; reflexivity|]); [reflexivity|split; reflexivity].
Qed.

(** C10: an entry named "post.mdx" that is a directory makes [isPost] true
    on "post" although neither "post.mdx" nor "post.md" is a file;
    [readPost] then throws (EISDIR), and so does the catch-all page at
    "/post". *)
Theorem isPost_directory_entry :
  isPost dirNamedPostRoot ["post"] = true /\
  (forall raw mtime, resolve (Dir dirNamedPostRoot) ["post.mdx"] <> Some (File raw mtime)) /\
  (forall raw mtime, resolve (Dir dirNamedPostRoot) ["post.md"] <> Some (File raw mtime)) /\
  readPost sampleMatter sampleToTime sampleIsoDay dirNamedPostRoot ["post"] = None /\
  CatchAllPage sampleMatter sampleToTime sampleIsoDay sampleNow sampleOutside
    dirNamedPostRoot ["post"] = None.
Proof.
  split; [reflexivity|split; [|split; [|split]]].
  - intros raw mtime. vm_compute. discriminate.
  - intros raw mtime. vm_compute. discriminate.
  - vm_compute. reflexivity.
  - vm_compute. reflexivity.
Qed.

End Examples.

(** ** Examples of the listing, page and view properties *)
Module ExtraExamples.
Import Listing Content Tree Indicator View Route Samples.
Local Open Scope string_scope.

Lemma lengthCompare_consistent : consistent lengthCompare.
Proof.
  unfold lengthCompare. split.
  - intros a b. rewrite <- Z.sgn_opp. f_equal. lia.
  - intros a b c. lia.
Qed.

Lemma sampleRoot_wf : wfEntries sampleRoot = true.
Proof. vm_compute. reflexivity. Qed.

Lemma sampleRoot_listing :
  readDirectory sampleMatter sampleToTime sampleIsoDay sampleNow sampleRoot [] =
  Some sampleListing.
Proof. vm_compute. reflexivity. Qed.

(** An upper-case image extension is looked up lower-cased. *)
Lemma getTypeIndicator_file_witness :
  isDirectory (mkEntry "photo.PNG" false ".PNG" "2026-01-01" 5 "" "/photo.PNG") = false /\
  (exists r, extension (mkEntry "photo.PNG" false ".PNG" "2026-01-01" 5 "" "/photo.PNG")
             = String "." r) /\
  exists s, getTypeIndicator (mkEntry "photo.PNG" false ".PNG" "2026-01-01" 5 "" "/photo.PNG")
            = IText s /\ In s ["[TXT]"; "[PDF]"; "[IMG]"; "[CMP]"; "[ ]"].
Proof.
  assert (H1 : isDirectory (mkEntry "photo.PNG" false ".PNG" "2026-01-01" 5 "" "/photo.PNG")
               = false) by reflexivity.
  assert (H2 : exists r, extension (mkEntry "photo.PNG" false ".PNG" "2026-01-01" 5 ""
                                     "/photo.PNG") = String "." r) by (eexists; reflexivity).
  split; [exact H1|split; [exact H2|]].
  exact (ViewFacts.getTypeIndicator_file _ H1 (or_intror H2)).
Defined.

(** The sample entries sorted by name, ascending, under the length collation. *)
Lemma sortEntries_sorted_witness :
  consistent lengthCompare /\
  StronglySorted (fun a b => compareEntries lengthCompare ColName Asc a b <= 0)%Z
    (sortEntries lengthCompare sampleEntries ColName Asc).
Proof.
  split; [exact lengthCompare_consistent|].
  exact (ViewFacts.sortEntries_sorted lengthCompare lengthCompare_consistent
           sampleEntries ColName Asc).
Defined.

(** Sorting the sample entries twice by size, descending. *)
Lemma sortEntries_idempotent_witness :
  consistent lengthCompare /\
  sortEntries lengthCompare (sortEntries lengthCompare sampleEntries ColSize Desc) ColSize Desc =
  sortEntries lengthCompare sampleEntries ColSize Desc.
Proof.
  split; [exact lengthCompare_consistent|].
  exact (ViewFacts.sortEntries_idempotent lengthCompare lengthCompare_consistent
           sampleEntries ColSize Desc).
Defined.

(** The post of the sample root listing. *)
Lemma listing_typeIndicator_witness :
  readDirectory sampleMatter sampleToTime sampleIsoDay sampleNow sampleRoot [] = Some sampleListing /\
  In (nth 1 sampleListing dummyEntry) sampleListing /\
  ((isDirectory (nth 1 sampleListing dummyEntry) = true /\
    getTypeIndicator (nth 1 sampleListing dummyEntry) = IText "[DIR]") \/
   (isDirectory (nth 1 sampleListing dummyEntry) = false /\
    getTypeIndicator (nth 1 sampleListing dummyEntry) = IText "[TXT]" /\
    name (nth 1 sampleListing dummyEntry) <> ".md" /\
    name (nth 1 sampleListing dummyEntry) <> ".mdx") \/
   (isDirectory (nth 1 sampleListing dummyEntry) = false /\
    getTypeIndicator (nth 1 sampleListing dummyEntry) = IText "[ ]" /\
    (name (nth 1 sampleListing dummyEntry) = ".md" \/
     name (nth 1 sampleListing dummyEntry) = ".mdx"))).
Proof.
  assert (H2 : In (nth 1 sampleListing dummyEntry) sampleListing)
    by (apply nth_In; vm_compute; lia).
  split; [exact sampleRoot_listing|split; [exact H2|]].
  exact (PageFacts.listing_typeIndicator _ _ _ _ _ _ _ _ sampleRoot_listing H2).
Defined.


(** The [archives/] link of the sample root listing. *)
Lemma listing_links_found_witness :
  wfEntries sampleRoot = true /\
  readDirectory sampleMatter sampleToTime sampleIsoDay sampleNow sampleRoot [] = Some sampleListing /\
  In (nth 0 sampleListing dummyEntry) sampleListing /\
  (isDirectory (nth 0 sampleListing dummyEntry) = false ->
   validName (slugOf (name (nth 0 sampleListing dummyEntry))) = true) /\
  exists q, href (nth 0 sampleListing dummyEntry) = "/" ++ joinPath q /\
            In q (generateStaticParams sampleRoot) /\
            CatchAllPage sampleMatter sampleToTime sampleIsoDay sampleNow sampleOutside
              sampleRoot q <> Some NotFound.
Proof.
  assert (H2 : In (nth 0 sampleListing dummyEntry) sampleListing)
    by (apply nth_In; vm_compute; lia).
  assert (H3 : isDirectory (nth 0 sampleListing dummyEntry) = false ->
               validName (slugOf (name (nth 0 sampleListing dummyEntry))) = true)
    by (vm_compute; intros Hd; discriminate Hd).
  split; [exact sampleRoot_wf|split; [exact sampleRoot_listing|split; [exact H2|split; [exact H3|]]]].
  exact (PageFacts.listing_links_found _ _ _ _ _ _ _ _ _ sampleRoot_wf sampleRoot_listing
           H2 H3).
Defined.

(** The [hello.mdx] link of the sample root listing. *)
Lemma listing_post_link_witness :
  wfEntries sampleRoot = true /\
  readDirectory sampleMatter sampleToTime sampleIsoDay sampleNow sampleRoot [] = Some sampleListing /\
  In (nth 1 sampleListing dummyEntry) sampleListing /\
  isDirectory (nth 1 sampleListing dummyEntry) = false /\
  validName (slugOf (name (nth 1 sampleListing dummyEntry))) = true /\
  exists es raw mtime,
    resolve (Dir sampleRoot) [] = Some (Dir es) /\
    lookup es (name (nth 1 sampleListing dummyEntry)) = Some (File raw mtime) /\
    href (nth 1 sampleListing dummyEntry) = "/" ++ joinPath ([] ++ [slugOf (name (nth 1 sampleListing dummyEntry))])%list /\
    (forall sub, lookup es (slugOf (name (nth 1 sampleListing dummyEntry))) = Some (Dir sub) ->
     CatchAllPage sampleMatter sampleToTime sampleIsoDay sampleNow sampleOutside sampleRoot ([] ++ [slugOf (name (nth 1 sampleListing dummyEntry))])%list =
     let* ents := readDirectory sampleMatter sampleToTime sampleIsoDay sampleNow sampleRoot ([] ++ [slugOf (name (nth 1 sampleListing dummyEntry))])%list in
     ret (ListingPage ("/" ++ joinPath ([] ++ [slugOf (name (nth 1 sampleListing dummyEntry))])%list ++ "/") ents)) /\
    ((forall sub, lookup es (slugOf (name (nth 1 sampleListing dummyEntry))) <> Some (Dir sub)) ->
     endsWith (name (nth 1 sampleListing dummyEntry)) ".mdx" = true \/ lookup es (slugOf (name (nth 1 sampleListing dummyEntry)) ++ ".mdx") = None ->
     CatchAllPage sampleMatter sampleToTime sampleIsoDay sampleNow sampleOutside sampleRoot ([] ++ [slugOf (name (nth 1 sampleListing dummyEntry))])%list =
     let* post := readPostFile sampleMatter sampleToTime sampleIsoDay ([] ++ [slugOf (name (nth 1 sampleListing dummyEntry))])%list raw in
     match post with
     | None => ret NotFound
     | Some p => ret (PostPage p (postParentPath ([] ++ [slugOf (name (nth 1 sampleListing dummyEntry))])%list))
     end) /\
    (forall raw' mtime',
     (forall sub, lookup es (slugOf (name (nth 1 sampleListing dummyEntry))) <> Some (Dir sub)) ->
     lookup es (slugOf (name (nth 1 sampleListing dummyEntry)) ++ ".mdx") = Some (File raw' mtime') ->
     CatchAllPage sampleMatter sampleToTime sampleIsoDay sampleNow sampleOutside sampleRoot ([] ++ [slugOf (name (nth 1 sampleListing dummyEntry))])%list =
     let* post := readPostFile sampleMatter sampleToTime sampleIsoDay ([] ++ [slugOf (name (nth 1 sampleListing dummyEntry))])%list raw' in
     match post with
     | None => ret NotFound
     | Some p => ret (PostPage p (postParentPath ([] ++ [slugOf (name (nth 1 sampleListing dummyEntry))])%list))
     end) /\
    (forall sub',
     (forall sub, lookup es (slugOf (name (nth 1 sampleListing dummyEntry))) <> Some (Dir sub)) ->
     lookup es (slugOf (name (nth 1 sampleListing dummyEntry)) ++ ".mdx") = Some (Dir sub') ->
     CatchAllPage sampleMatter sampleToTime sampleIsoDay sampleNow sampleOutside sampleRoot ([] ++ [slugOf (name (nth 1 sampleListing dummyEntry))])%list
     = None).
Proof.
  assert (H2 : In (nth 1 sampleListing dummyEntry) sampleListing)
    by (apply nth_In; vm_compute; lia).
  assert (H3 : isDirectory (nth 1 sampleListing dummyEntry) = false)
    by (vm_compute; reflexivity).
  assert (H4 : validName (slugOf (name (nth 1 sampleListing dummyEntry))) = true)
    by (vm_compute; reflexivity).
  split; [exact sampleRoot_wf|split; [exact sampleRoot_listing|split; [exact H2|split; [exact H3|split; [exact H4|]]]]].
  exact (PageFacts.listing_post_link _ _ _ _ _ _ _ _ _ sampleRoot_wf sampleRoot_listing
           H2 H3 H4).
Defined.

(** The sample root listing. *)
Lemma readDirectory_names_distinct_witness :
  wfEntries sampleRoot = true /\
  readDirectory sampleMatter sampleToTime sampleIsoDay sampleNow sampleRoot [] = Some sampleListing /\
  NoDup (map name sampleListing).
Proof.
  split; [exact sampleRoot_wf|split; [exact sampleRoot_listing|]].
  exact (PageFacts.readDirectory_names_distinct _ _ _ _ _ _ _ sampleRoot_wf sampleRoot_listing).
Defined.

(** The [archives/] page of the sample tree links back to "/". *)
Lemma listing_parentHref_witness :
  Forall (fun s => validName s = true) ["archives"] /\
  exists es,
    CatchAllPage sampleMatter sampleToTime sampleIsoDay sampleNow sampleOutside sampleRoot ["archives"]
      = Some (ListingPage "/archives/" es) /\
    parentHref "/archives/" = Some (postParentPath ["archives"]) /\
    postParentPath ["archives"] = "/" ++ joinPath (removelast ["archives"]).
Proof.
  assert (Hv : Forall (fun s => validName s = true) ["archives"])
    by (repeat constructor).
  assert (H : CatchAllPage sampleMatter sampleToTime sampleIsoDay sampleNow sampleOutside sampleRoot
                ["archives"]
              = Some (ListingPage "/archives/"
                        (match readDirectory sampleMatter sampleToTime sampleIsoDay sampleNow
                                 sampleRoot ["archives"] with
                         | Some l => l | None => [] end)))
    by (vm_compute; reflexivity).
  split; [exact Hv|]. eexists. split; [exact H|].
  exact (PageFacts.listing_parentHref _ _ _ _ _ _ _ _ _ Hv H).
Defined.

(** The breadcrumb of the [archives/] page of the sample tree. *)
Lemma listing_breadcrumb_witness :
  Forall (fun s => validName s = true) ["archives"] /\
  exists es,
    CatchAllPage sampleMatter sampleToTime sampleIsoDay sampleNow sampleOutside sampleRoot ["archives"]
      = Some (ListingPage "/archives/" es) /\
    breadcrumb "/archives/" =
    mapi_from (fun i s => mkCrumb ("/" ++ joinPath (firstn (S i) ["archives"])) s "/") 0
      ["archives"].
Proof.
  assert (Hv : Forall (fun s => validName s = true) ["archives"])
    by (repeat constructor).
  assert (H : CatchAllPage sampleMatter sampleToTime sampleIsoDay sampleNow sampleOutside sampleRoot
                ["archives"]
              = Some (ListingPage "/archives/"
                        (match readDirectory sampleMatter sampleToTime sampleIsoDay sampleNow
                                 sampleRoot ["archives"] with
                         | Some l => l | None => [] end)))
    by (vm_compute; reflexivity).
  split; [exact Hv|]. eexists. split; [exact H|].
  exact (PageFacts.listing_breadcrumb _ _ _ _ _ _ _ _ _ Hv H).
Defined.

(** The parent of the archived post of the sample tree. *)
Lemma getAllPaths_prefix_closed_witness :
  In ["archives"; "old-post"] (getAllPaths sampleRoot) /\
  (0 < 1 < List.length ["archives"; "old-post"])%nat /\
  In (firstn 1 ["archives"; "old-post"]) (getAllPaths sampleRoot) /\
  (wfEntries sampleRoot = true ->
   isDirectoryPath sampleRoot (firstn 1 ["archives"; "old-post"]) = true).
Proof.
  assert (H : In ["archives"; "old-post"] (getAllPaths sampleRoot))
    by (vm_compute; right; left; reflexivity).
  assert (Hk : (0 < 1 < List.length ["archives"; "old-post"])%nat) by (simpl; lia).
  split; [exact H|split; [exact Hk|]].
  exact (PageFacts.getAllPaths_prefix_closed _ _ _ H Hk).
Defined.

End ExtraExamples.
